(** * quick-yaml.db: a shallow embedding of the QuickYAML store

    The store of [src/unnamed/part_003] (first class, lines 1-336) keeps its
    whole state in one YAML file.  Every operation re-reads the file with
    [_load] (js-yaml's [load]) and every mutation re-writes it with [_write]
    (js-yaml's [dump] and [fs.writeFileSync]).

    Modelling choices:
    - a YAML tree on disk is a [yval]; the serializer pair is taken as the
      identity on trees, so a file is a [contents]: the empty file, the
      dump of a mapping, or text that fails to parse;
    - a JavaScript value in memory is a [jsval]: arrays and plain objects
      carry an allocation number, which is what [===] / [!==] compare;
      [_load] allocates fresh numbers for every composite it builds;
    - a loaded document ([doc]) is the JavaScript object returned by
      [_load], as the association list of its own keys in property order;
      it inherits from [Object.prototype], whose property names the [in]
      operator also sees;
    - property order is JavaScript's: the keys that are array indices
      come first in ascending numeric order, the other keys follow in the
      order they were added.  js-yaml builds each mapping by adding its
      pairs in file order, so a loaded document lists the file's keys in
      that order ([yload]), nested mappings included, and [dump] writes
      them back in it;
    - the file system maps paths to optional contents; an event log records
      file reads, serializer calls and file writes;
    - JavaScript numbers are integers here ([Z]); strings are ASCII. *)

From Stdlib Require Import List String Ascii ZArith Bool Lia Permutation.
Import ListNotations.
Set Warnings "-register-all".
Open Scope string_scope.

(** ** Values *)

(** YAMLTypes as stored in the file. *)
Inductive yval : Type :=
| YNull
| YBool (b : bool)
| YNum (n : Z)
| YStr (s : string)
| YSeq (xs : list yval)
| YMap (fs : list (string * yval)).

(** YAMLTypes in memory: composites carry their object identity. *)
Inductive jsval : Type :=
| JNull
| JBool (b : bool)
| JNum (n : Z)
| JStr (s : string)
| JArr (id : nat) (xs : list jsval)
| JObj (id : nat) (fs : list (string * jsval)).

(** Nested induction principle for [yval]. *)
Section yval_rect.
Variable P : yval -> Prop.
Hypothesis HNull : P YNull.
Hypothesis HBool : forall b, P (YBool b).
Hypothesis HNum : forall n, P (YNum n).
Hypothesis HStr : forall s, P (YStr s).
Hypothesis HSeq : forall xs, Forall P xs -> P (YSeq xs).
Hypothesis HMap : forall fs, Forall (fun p => P (snd p)) fs -> P (YMap fs).

Fixpoint yval_ind' (y : yval) : P y :=
  match y with
  | YNull => HNull
  | YBool b => HBool b
  | YNum n => HNum n
  | YStr s => HStr s
  | YSeq xs =>
      HSeq xs ((fix go (l : list yval) : Forall P l :=
                  match l with
                  | [] => Forall_nil _
                  | x :: r => Forall_cons _ (yval_ind' x) (go r)
                  end) xs)
  | YMap fs =>
      HMap fs ((fix go (l : list (string * yval)) : Forall (fun p => P (snd p)) l :=
                  match l with
                  | [] => Forall_nil _
                  | (k, x) :: r => Forall_cons (k, x) (yval_ind' x) (go r)
                  end) fs)
  end.
End yval_rect.

(** [jsyaml.dump] sees the structure of a value, not its identity. *)
Fixpoint erase (v : jsval) : yval :=
  match v with
  | JNull => YNull
  | JBool b => YBool b
  | JNum n => YNum n
  | JStr s => YStr s
  | JArr _ xs => YSeq (map erase xs)
  | JObj _ fs => YMap (map (fun p => (fst p, erase (snd p))) fs)
  end.

(** [jsyaml.load] builds fresh arrays and objects: [alloc n y] builds the
    value of [y] numbering its composites from [n], and returns the next
    free number. *)
Fixpoint alloc (n : nat) (y : yval) : jsval * nat :=
  match y with
  | YNull => (JNull, n)
  | YBool b => (JBool b, n)
  | YNum z => (JNum z, n)
  | YStr s => (JStr s, n)
  | YSeq xs =>
      let '(vs, n') :=
        (fix go (m : nat) (l : list yval) : list jsval * nat :=
           match l with
           | [] => ([], m)
           | x :: r => let '(v, m1) := alloc m x in
                       let '(vs, m2) := go m1 r in (v :: vs, m2)
           end) (S n) xs in
      (JArr n vs, n')
  | YMap fs =>
      let '(ps, n') :=
        (fix go (m : nat) (l : list (string * yval)) : list (string * jsval) * nat :=
           match l with
           | [] => ([], m)
           | (k, x) :: r => let '(v, m1) := alloc m x in
                            let '(ps, m2) := go m1 r in ((k, v) :: ps, m2)
           end) (S n) fs in
      (JObj n ps, n')
  end.

(** A document as stored, and as loaded. *)
Definition ydoc := list (string * yval).
Definition doc := list (string * jsval).

Fixpoint alloc_doc (n : nat) (d : ydoc) : doc * nat :=
  match d with
  | [] => ([], n)
  | (k, y) :: r => let '(v, n1) := alloc n y in
                   let '(o, n2) := alloc_doc n1 r in ((k, v) :: o, n2)
  end.

Definition erase_doc (o : doc) : ydoc := map (fun p => (fst p, erase (snd p))) o.

(** ** JavaScript semantics used by the store *)

(** [===] and [!==]: scalars by value, arrays and objects by identity. *)
Definition strict_eq (a b : jsval) : bool :=
  match a, b with
  | JNull, JNull => true
  | JBool x, JBool y => Bool.eqb x y
  | JNum x, JNum y => Z.eqb x y
  | JStr x, JStr y => String.eqb x y
  | JArr i _, JArr j _ => Nat.eqb i j
  | JObj i _, JObj j _ => Nat.eqb i j
  | _, _ => false
  end.

(** SameValueZero, used by [Array.prototype.includes]; it differs from
    [===] only on NaN, which integer numbers do not have. *)
Definition same_value_zero (a b : jsval) : bool := strict_eq a b.

(** Decimal digits of a natural number, for [String(n)]. *)
Fixpoint dec_digits (fuel : nat) (n : N) (acc : string) : string :=
  match fuel with
  | O => acc
  | S f =>
      let acc' := String (ascii_of_N (48 + N.modulo n 10)) acc in
      if (n <? 10)%N then acc' else dec_digits f (N.div n 10) acc'
  end.

Definition Z_to_dec (z : Z) : string :=
  match z with
  | Z0 => "0"
  | Zpos p => dec_digits (Pos.size_nat p) (Npos p) ""
  | Zneg p => "-" ++ dec_digits (Pos.size_nat p) (Npos p) ""
  end.

(** [String(v)]: arrays are joined with commas, [null] elements print as
    the empty string, plain objects print as [[object Object]]. *)
Fixpoint to_js_string (v : jsval) : string :=
  match v with
  | JNull => "null"
  | JBool true => "true"
  | JBool false => "false"
  | JNum z => Z_to_dec z
  | JStr s => s
  | JArr _ xs =>
      (fix join (l : list jsval) : string :=
         match l with
         | [] => ""
         | [x] => match x with JNull => "" | _ => to_js_string x end
         | x :: r => (match x with JNull => "" | _ => to_js_string x end) ++ "," ++ join r
         end) xs
  | JObj _ _ => "[object Object]"
  end.

(** [s.includes(t)] on strings: substring search. *)
Definition str_contains (t s : string) : bool :=
  match String.index 0 t s with Some _ => true | None => false end.

(** ** Property order *)

Definition is_digit (c : ascii) : bool :=
  Nat.leb 48 (nat_of_ascii c) && Nat.leb (nat_of_ascii c) 57.

(** A name made of decimal digits only. *)
Definition index_like (k : string) : bool :=
  match k with
  | EmptyString => false
  | _ => forallb is_digit (list_ascii_of_string k)
  end.

(** The number a string of decimal digits denotes. *)
Definition digits_value (k : string) : N :=
  fold_left (fun n c => (10 * n + N.of_nat (nat_of_ascii c - 48))%N) (list_ascii_of_string k) 0%N.

(** An array index: the canonical decimal form (no leading zero) of an
    integer below 2^32 - 1.  Such keys are the ones an ordinary object
    lists first, in ascending numeric order. *)
Definition array_index (k : string) : option N :=
  if String.eqb k "0" then Some 0%N
  else match k with
       | String c _ =>
           if index_like k && negb (Ascii.eqb c "0"%char)
              && (digits_value k <? 4294967295)%N
           then Some (digits_value k) else None
       | EmptyString => None
       end.

(** Adding an array index [n] among the array indices of an object, before
    the first key that is not an array index or is a larger one. *)
Fixpoint ins_index {A} (n : N) (k : string) (v : A) (o : list (string * A))
  : list (string * A) :=
  match o with
  | [] => [(k, v)]
  | (k', v') :: r =>
      match array_index k' with
      | Some m => if (n <? m)%N then (k, v) :: o else (k', v') :: ins_index n k v r
      | None => (k, v) :: o
      end
  end.

(** Where a new own property goes: an array index among the array
    indices, any other key after every key. *)
Definition add_key {A} (o : list (string * A)) (k : string) (v : A) : list (string * A) :=
  match array_index k with
  | Some n => ins_index n k v o
  | None => (o ++ [(k, v)])%list
  end.

(** The keys of an object built by adding the pairs of [l] in order, as
    the object lists them. *)
Definition js_order {A} (l : list (string * A)) : list (string * A) :=
  fold_left (fun o p => add_key o (fst p) (snd p)) l [].

(** The names [Object.prototype] provides to every plain object. *)
Definition object_prototype_names : list string :=
  ["constructor"; "hasOwnProperty"; "isPrototypeOf"; "propertyIsEnumerable";
   "toLocaleString"; "toString"; "valueOf"; "__proto__";
   "__defineGetter__"; "__defineSetter__"; "__lookupGetter__"; "__lookupSetter__"].

Definition is_proto_name (k : string) : bool :=
  existsb (String.eqb k) object_prototype_names.

(** The result of reading [obj[k]]: [undefined], a YAML value, or a member
    inherited from [Object.prototype] (a function, or the prototype itself
    for [__proto__]). *)
Inductive prop : Type :=
| PUndef
| PVal (v : jsval)
| PProto (name : string).

Fixpoint own (k : string) (o : doc) : option jsval :=
  match o with
  | [] => None
  | (k', v) :: r => if String.eqb k' k then Some v else own k r
  end.

(** [k in obj] looks through the prototype chain. *)
Definition js_in (k : string) (o : doc) : bool :=
  match own k o with Some _ => true | None => is_proto_name k end.

(** [obj[k]]. *)
Definition js_get (k : string) (o : doc) : prop :=
  match own k o with
  | Some v => PVal v
  | None => if is_proto_name k then PProto k else PUndef
  end.

(** [obj[k] = v]: an own key is updated in place, a new key is added in
    property order; assigning [__proto__] when it is not an own key goes
    to the inherited accessor, which changes the prototype and adds no own
    key. *)
Definition js_set (o : doc) (k : string) (v : jsval) : doc :=
  match own k o with
  | Some _ => List.map (fun p => if String.eqb (fst p) k then (k, v) else p) o
  | None => if String.eqb k "__proto__" then o else add_key o k v
  end.

(** [delete obj[k]]: removes the own key, if any. *)
Definition js_delete (o : doc) (k : string) : doc :=
  filter (fun p => negb (String.eqb (fst p) k)) o.

(** Truthiness, for [x || y]. *)
Definition truthy (p : prop) : bool :=
  match p with
  | PUndef => false
  | PProto _ => true
  | PVal JNull => false
  | PVal (JBool b) => b
  | PVal (JNum z) => negb (Z.eqb z 0)
  | PVal (JStr s) => negb (String.eqb s "")
  | PVal (JArr _ _) | PVal (JObj _ _) => true
  end.

Definition js_or (a b : prop) : prop := if truthy a then a else b.

(** [arr[i]] on an array of values, for a numeric index. *)
Definition index_prop (l : list jsval) (i : Z) : prop :=
  if (i <? 0)%Z then PUndef
  else match nth_error l (Z.to_nat i) with Some v => PVal v | None => PUndef end.

(** [length] of the functions of [Object.prototype]. *)
Definition proto_length (name : string) : prop :=
  if String.eqb name "__proto__" then PUndef
  else if existsb (String.eqb name) ["toLocaleString"; "toString"; "valueOf"]
  then PVal (JNum 0)
  else if existsb (String.eqb name) ["__defineGetter__"; "__defineSetter__"]
  then PVal (JNum 2)
  else PVal (JNum 1).

(** ** What js-yaml builds *)

(** The tree of the value js-yaml builds for a YAML tree: every mapping
    lists its keys in property order ([storeMappingPair] adds the pairs in
    file order; for [__proto__] it defines an own property). *)
Fixpoint ynorm (y : yval) : yval :=
  match y with
  | YNull => YNull
  | YBool b => YBool b
  | YNum z => YNum z
  | YStr s => YStr s
  | YSeq xs => YSeq (map ynorm xs)
  | YMap fs => YMap (js_order (map (fun p => (fst p, ynorm (snd p))) fs))
  end.

(** The document js-yaml builds for a file's mapping. *)
Definition yload (d : ydoc) : ydoc := js_order (map (fun p => (fst p, ynorm (snd p))) d).

(** ** File system, errors and the store monad *)

(** What a file holds: nothing (zero bytes), the YAML text of a mapping
    (its pairs in file order), or text js-yaml cannot parse (a mapping
    that repeats a key is such text). *)
Inductive contents : Type :=
| Empty
| Yaml (d : ydoc)
| Malformed.

Inductive event : Type :=
| ERead (p : string)               (* fs.readFileSync *)
| EDump                            (* jsyaml.dump *)
| EWrite (p : string) (c : contents). (* fs.writeFileSync *)

Record St : Type := mkSt {
  disk : string -> option contents;
  next_id : nat;
  log : list event   (* newest first *)
}.

(** The thrown errors, by message. *)
Inductive error : Type :=
| ErrPathNotFound   (* 'The file path was not found' *)
| ErrExtension      (* 'The file path is must end with .yaml or .yml' *)
| ErrDeleted        (* 'The file path was not found or was deleted' *)
| ErrParse          (* 'Unable to parse the YAML file' *)
| ErrType.          (* a TypeError of the JavaScript runtime *)

Inductive res (A : Type) : Type :=
| Ok (a : A)
| Err (e : error).
Arguments Ok {A} a.
Arguments Err {A} e.

(** A computation returns a result or a thrown error; file effects made
    before a throw stay. *)
Definition M (A : Type) : Type := St -> res A * St.

Definition ret {A} (a : A) : M A := fun s => (Ok a, s).
Definition throw {A} (e : error) : M A := fun s => (Err e, s).
Definition lift {A} (r : res A) : M A := fun s => (r, s).
Definition bind {A B} (m : M A) (f : A -> M B) : M B :=
  fun s => match m s with
           | (Ok a, s') => f a s'
           | (Err e, s') => (Err e, s')
           end.

Notation "x <- m ;; k" := (bind m (fun x => k))
  (at level 61, m at next level, right associativity).

Definition add_event (e : event) (s : St) : St :=
  {| disk := disk s; next_id := next_id s; log := e :: log s |}.

Definition set_next (n : nat) (s : St) : St :=
  {| disk := disk s; next_id := n; log := log s |}.

Definition fs_write (p : string) (c : contents) (s : St) : St :=
  {| disk := fun q => if String.eqb q p then Some c else disk s q;
     next_id := next_id s;
     log := EWrite p c :: log s |}.

(** A fresh object identity. *)
Definition fresh : M nat := fun s => (Ok (next_id s), set_next (S (next_id s)) s).

(** ** The store *)

Record DefValue : Type := { variable : string; value : jsval }.

Record ModelOptions : Type := {
  setValuesOnReady : option bool;
  defaultModelValues : list DefValue
}.

Record QuickYAMLOptions : Type := { model : option ModelOptions }.

Record QuickYAML : Type := { path : string; options : option QuickYAMLOptions }.

(** [String.prototype.endsWith]. *)
Definition ends_with (s suf : string) : bool :=
  let n := String.length s in
  let m := String.length suf in
  Nat.leb m n && String.eqb (substring (n - m) m s) suf.

(** Method calls on [data[variable]]. *)
Definition call_push (recv : prop) (vals : list jsval) : res jsval :=
  match recv with
  | PVal (JArr i xs) => Ok (JArr i (xs ++ vals))  (* in place: same array *)
  | _ => Err ErrType
  end.

Definition call_includes (recv : prop) (a : jsval) : res bool :=
  match recv with
  | PVal (JArr _ xs) => Ok (existsb (same_value_zero a) xs)
  | PVal (JStr s) => Ok (str_contains (to_js_string a) s)
  | _ => Err ErrType
  end.

(** [arr.filter((v) => v !== a)] builds a new array. *)
Definition call_filter_neq (recv : prop) (a : jsval) : M jsval :=
  match recv with
  | PVal (JArr _ xs) =>
      i <- fresh ;; ret (JArr i (filter (fun v => negb (strict_eq v a)) xs))
  | _ => throw ErrType
  end.

Definition length_of (recv : prop) : res prop :=
  match recv with
  | PVal (JArr _ xs) => Ok (PVal (JNum (Z.of_nat (List.length xs))))
  | PVal (JStr s) => Ok (PVal (JNum (Z.of_nat (String.length s))))
  | PVal (JObj _ fs) => Ok (match own "length" fs with Some v => PVal v | None => PUndef end)
  | PVal (JNum _) | PVal (JBool _) => Ok PUndef
  | PVal JNull | PUndef => Err ErrType
  | PProto name => Ok (proto_length name)
  end.

(** The methods of class [QuickYAML] (src/unnamed/part_003, lines 5-336). *)
Module Db.

(** [_write] (lines 35-51). *)
Definition _write (db : QuickYAML) (obj : doc) : M unit :=
  fun s =>
    match disk s (path db) with
    | None => (Err ErrDeleted, s)
    | Some _ =>
        if Nat.leb (List.length obj) 0
        then (Ok tt, fs_write (path db) Empty s)
        else (Ok tt, fs_write (path db) (Yaml (erase_doc obj)) (add_event EDump s))
    end.

(** [_load] (lines 57-67): [jsyaml.load('')] is [undefined], and
    [undefined || {}] is a fresh empty object; a mapping gives a fresh
    object whose keys are in property order. *)
Definition _load (db : QuickYAML) : M doc :=
  fun s =>
    match disk s (path db) with
    | None => (Err ErrDeleted, s)
    | Some c =>
        let s1 := add_event (ERead (path db)) s in
        match c with
        | Empty => (Ok [], s1)
        | Malformed => (Err ErrParse, s1)
        | Yaml d => let '(o, n) := alloc_doc (next_id s1) (yload d) in (Ok o, set_next n s1)
        end
    end.

Definition toJSON (db : QuickYAML) : M doc := _load db.

Definition set (db : QuickYAML) (variable : string) (value : jsval) : M unit :=
  obj <- toJSON db ;;
  _write db (js_set obj variable value).

Definition delete (db : QuickYAML) (variable : string) : M unit :=
  obj <- toJSON db ;;
  if js_in variable obj then _write db (js_delete obj variable) else ret tt.

Definition purge (db : QuickYAML) (variables : list string) : M unit :=
  obj <- toJSON db ;;
  _write db (fold_left (fun o v => if js_in v o then js_delete o v else o) variables obj).

Definition get (db : QuickYAML) (variable : string) : M prop :=
  obj <- toJSON db ;;
  ret (if js_in variable obj then js_get variable obj else PUndef).

Definition has (db : QuickYAML) (variable : string) : M bool :=
  obj <- toJSON db ;;
  ret (js_in variable obj).

Definition clear (db : QuickYAML) : M unit := _write db [].

Definition keys (db : QuickYAML) : M (list string) :=
  obj <- toJSON db ;; ret (List.map fst obj).

Definition values (db : QuickYAML) : M (list jsval) :=
  obj <- toJSON db ;; ret (List.map snd obj).

Definition size (db : QuickYAML) : M nat :=
  ks <- keys db ;; ret (List.length ks).

(** [first]: [data[0] || undefined]. *)
Definition first (db : QuickYAML) : M prop :=
  data <- values db ;;
  ret (js_or (index_prop data 0) PUndef).

(** [last]: [data[this.size - 1] || undefined]. *)
Definition last (db : QuickYAML) : M prop :=
  data <- values db ;;
  n <- size db ;;
  ret (js_or (index_prop data (Z.of_nat n - 1)) PUndef).

(** A callback [func(value, key, index)]; it may use the store.  The key
    is [undefined] ([None]) when read past the end of an array. *)
Definition callback (R : Type) : Type := prop -> option string -> nat -> M R.

(** The arguments of one call of a callback. *)
Definition call : Type := (prop * option string * nat)%type.

Fixpoint forEach_loop {R} (func : callback R) (obj : doc) (i : nat) : M (list call) :=
  match obj with
  | [] => ret []
  | (variable, v) :: r =>
      _ <- func (PVal v) (Some variable) i ;;
      cs <- forEach_loop func r (S i) ;;
      ret ((PVal v, Some variable, i) :: cs)
  end.

(** [forEach] (lines 236-250).  It returns the store; the list returned
    here records the arguments of each call of [func], in order. *)
Definition forEach {R} (db : QuickYAML) (func : callback R) : M (list call) :=
  obj <- toJSON db ;;
  forEach_loop func obj 0.

(** A missing array element used as a property name reads as "undefined". *)
Definition key_name (k : option string) : string :=
  match k with Some k => k | None => "undefined" end.

(** The mapping function given to [Array.from] in [map], called for
    the remaining [n] positions, [currentIndex] calls having been made. *)
Fixpoint map_loop {R} (db : QuickYAML) (func : callback R) (n currentIndex : nat)
  : M (list R) :=
  match n with
  | O => ret []
  | S n' =>
      ks <- keys db ;;
      v <- get db (key_name (nth_error ks currentIndex)) ;;
      r <- func v (nth_error ks (S currentIndex)) currentIndex ;;
      rs <- map_loop db func n' (S currentIndex) ;;
      ret (r :: rs)
  end.

(** [map] (lines 284-296). *)
Definition map {R} (db : QuickYAML) (func : callback R) : M (list R) :=
  n <- size db ;;
  map_loop db func n 0.

(** [push] (lines 304-314). *)
Definition push (db : QuickYAML) (variable : string) (values : list jsval) : M prop :=
  data <- toJSON db ;;
  h <- has db variable ;;
  if negb h then ret (PVal (JNum (-1))) else
  arr <- lift (call_push (js_get variable data) values) ;;
  let data' := js_set data variable arr in
  _ <- _write db data' ;;
  lift (length_of (js_get variable data')).

Fixpoint pull_loop (variable : string) (values : list jsval) (data : doc) : M doc :=
  match values with
  | [] => ret data
  | value :: r =>
      inc <- lift (call_includes (js_get variable data) value) ;;
      if inc
      then arr <- call_filter_neq (js_get variable data) value ;;
           pull_loop variable r (js_set data variable arr)
      else pull_loop variable r data
  end.

(** [pull] (lines 323-335). *)
Definition pull (db : QuickYAML) (variable : string) (values : list jsval) : M prop :=
  data <- toJSON db ;;
  h <- has db variable ;;
  if negb h then ret (PVal (JNum (-1))) else
  data' <- pull_loop variable values data ;;
  _ <- _write db data' ;;
  lift (length_of (js_get variable data')).

(** [(this.options?.model?.defaultModelValues.length || 0) > 0 &&
    this.options?.model?.setValuesOnReady]. *)
Definition seeding_enabled (o : option QuickYAMLOptions) : bool :=
  match o with
  | Some {| model := Some m |} =>
      Nat.ltb 0 (List.length (defaultModelValues m))
      && match setValuesOnReady m with Some true => true | _ => false end
  | _ => false
  end.

Definition default_values (o : option QuickYAMLOptions) : list DefValue :=
  match o with
  | Some {| model := Some m |} => defaultModelValues m
  | _ => []
  end.

Fixpoint seed (db : QuickYAML) (l : list DefValue) : M unit :=
  match l with
  | [] => ret tt
  | m :: r =>
      h <- has db (variable m) ;;
      if h then seed db r
      else _ <- set db (variable m) (value m) ;; seed db r
  end.

(** [constructor] (lines 14-29). *)
Definition constructor (p : string) (o : option QuickYAMLOptions) : M QuickYAML :=
  let db := {| path := p; options := o |} in
  fun s =>
    match disk s p with
    | None => (Err ErrPathNotFound, s)
    | Some _ =>
        if negb (ends_with p ".yaml" || ends_with p ".yml")
        then (Err ErrExtension, s)
        else (_ <- (if seeding_enabled o then seed db (default_values o) else ret tt) ;;
              ret db) s
    end.

(** [ensure] (lines 144-148). *)
Definition ensure (db : QuickYAML) (variable : string) (defaultValue : jsval) : M prop :=
  obj <- toJSON db ;;
  ret (if js_in variable obj then js_get variable obj else PVal defaultValue).

(** [find] (lines 154-161): the object [{ variable, value }]. *)
Definition find (db : QuickYAML) (variable : string) : M (string * prop) :=
  value <- get db variable ;;
  ret (variable, value).

(** [pick] (lines 167-180): the objects pushed on [arr], in order. *)
Fixpoint pick (db : QuickYAML) (variables : list string) : M (list (string * prop)) :=
  match variables with
  | [] => ret []
  | variable :: r =>
      h <- has db variable ;;
      if negb h then pick db r
      else value <- get db variable ;;
           arr <- pick db r ;;
           ret ((variable, value) :: arr)
  end.

(** [entries] (lines 205-209): [Object.entries(obj)], the own pairs in order. *)
Definition entries (db : QuickYAML) : M (list (string * jsval)) :=
  obj <- toJSON db ;; ret obj.

(** [Array.prototype.indexOf] on an array of strings, from position [i]. *)
Fixpoint index_of_from (l : list string) (x : string) (i : Z) : Z :=
  match l with
  | [] => (-1)%Z
  | y :: r => if String.eqb y x then i else index_of_from r x (i + 1)
  end.

(** [indexOf] (lines 275-277). *)
Definition indexOf (db : QuickYAML) (variable : string) : M Z :=
  ks <- keys db ;;
  ret (index_of_from ks variable 0).

End Db.

(** The check of the earlier cached variant, [_init] of src/src/types.ts
    (lines 47-57), up to the extension test. *)
Definition init_cached_check (p : string) : M unit :=
  fun s =>
    match disk s p with
    | None => (Err ErrPathNotFound, s)
    | Some _ =>
        if negb (ends_with p ".yaml") || negb (ends_with p ".yml")
        then (Err ErrExtension, s)
        else (Ok tt, s)
    end.

(** The constructor of the earlier cached variant (src/src/types.ts, lines
    35-57): [_init] runs its two checks, then loads the file and copies each
    key into [cache]; the result here is the cache's entries. *)
Definition cached_constructor (p : string) : M doc :=
  _ <- init_cached_check p ;;
  data <- Db._load {| path := p; options := None |} ;;
  ret data.

(** ** Specification-side notions *)

(** First binding of a key in a stored document. *)
Fixpoint ylookup (k : string) (d : ydoc) : option yval :=
  match d with
  | [] => None
  | (k', y) :: r => if String.eqb k' k then Some y else ylookup k r
  end.

(** Rebinding an existing key of a stored document. *)
Definition ydoc_set (d : ydoc) (k : string) (y : yval) : ydoc :=
  List.map (fun p => if String.eqb (fst p) k then (k, y) else p) d.

(** The document a file holds, read back ([Empty] reads as no keys). *)
Definition doc_of (c : contents) : ydoc :=
  match c with Yaml d => d | _ => [] end.

(** The composite identities of a caller's value were allocated before the
    store's next allocation. *)
Definition allocated_before (n : nat) (a : jsval) : bool :=
  match a with
  | JArr i _ | JObj i _ => Nat.ltb i n
  | _ => true
  end.

(** [===] between a caller's value and an element freshly decoded from the
    file: scalars compare by value, and no composite of the caller is the
    freshly built object. *)
Definition scalar_match (a : jsval) (y : yval) : bool :=
  match a, y with
  | JNull, YNull => true
  | JBool x, YBool z => Bool.eqb x z
  | JNum x, YNum z => Z.eqb x z
  | JStr x, YStr z => String.eqb x z
  | _, _ => false
  end.

(** The elements of a stored sequence that [pull] keeps. *)
Definition pull_spec (ys : list yval) (vals : list jsval) : list yval :=
  filter (fun y => forallb (fun a => negb (scalar_match a y)) vals) ys.

(** ** Allocation on load *)

Fixpoint alloc_list (m : nat) (l : list yval) : list jsval * nat :=
  match l with
  | [] => ([], m)
  | x :: r => let '(v, m1) := alloc m x in
              let '(vs, m2) := alloc_list m1 r in (v :: vs, m2)
  end.

Fixpoint alloc_fields (m : nat) (l : list (string * yval)) : list (string * jsval) * nat :=
  match l with
  | [] => ([], m)
  | (k, x) :: r => let '(v, m1) := alloc m x in
                   let '(ps, m2) := alloc_fields m1 r in ((k, v) :: ps, m2)
  end.

(** ** Notions used by the statements and their instances *)

(** The composite identity of a value is at least [n]. *)
Definition fresh_from (n : nat) (v : jsval) : Prop :=
  match v with
  | JArr i _ | JObj i _ => n <= i
  | _ => True
  end.

(** The elements kept by [pull]'s loop: those [!==] every argument. *)
Definition keep_after (vals : list jsval) (v : jsval) : bool :=
  forallb (fun a => negb (strict_eq v a)) vals.

Definition example_db : QuickYAML := {| path := "example.yaml"; options := None |}.

(** A store whose file is not on the file system. *)
Definition missing_db : QuickYAML := {| path := "missing.yaml"; options := None |}.

(** A file system holding only [example.yaml]. *)
Definition state_with (c : contents) (n : nat) : St :=
  {| disk := fun p => if String.eqb p "example.yaml" then Some c else None;
     next_id := n;
     log := [] |}.

Definition languages_doc : ydoc :=
  [("languages", YSeq [YStr "English"; YStr "French"])].

Definition name_doc : ydoc := [("name", YStr "John"); ("age", YNum 24)].

Definition count_reads (evs : list event) : nat :=
  List.length (filter (fun e => match e with ERead _ => true | _ => false end) evs).

Definition count_writes (evs : list event) : nat :=
  List.length (filter (fun e => match e with EWrite _ _ => true | _ => false end) evs).

(** A computation that never throws the two errors of the constructor's
    own checks. *)
Definition no_check_error {A} (m : M A) : Prop :=
  forall s, fst (m s) <> Err ErrPathNotFound /\ fst (m s) <> Err ErrExtension.

Definition alive_options (defaults : list DefValue) : option QuickYAMLOptions :=
  Some {| model := Some {| setValuesOnReady := Some true; defaultModelValues := defaults |} |}.

(** The calls an iteration over a snapshot makes, from position [i]. *)
Fixpoint snapshot_calls (obj : doc) (i : nat) : list Db.call :=
  match obj with
  | [] => []
  | (k, v) :: r => (PVal v, Some k, i) :: snapshot_calls r (S i)
  end.

(** A callback that leaves the file system as it found it. *)
Definition preserves_disk {R} (func : Db.callback R) : Prop :=
  forall v k i s r s', func v k i s = (Ok r, s') -> disk s' = disk s.

(** Wraps a callback so that [map] also returns the value and index
    arguments of each call. *)
Definition spy {R} (func : Db.callback R) : Db.callback (prop * nat * R) :=
  fun v k i => r <- func v k i ;; ret (v, i, r).

Definition prop_erase (p : prop) : option yval :=
  match p with PVal v => Some (erase v) | _ => None end.

(** The values of a stored document with their positions, from [i]. *)
Fixpoint indexed_values (d : ydoc) (i : nat) : list (option yval * nat) :=
  match d with
  | [] => []
  | (_, y) :: r => (Some y, i) :: indexed_values r (S i)
  end.

Definition ab_doc : ydoc := [("a", YNum 1); ("b", YNum 2)].

(** A file whose array-index key comes after another key. *)
Definition index_doc : ydoc := [("b", YNum 2); ("1", YNum 1)].

(** A callback that only returns its value argument. *)
Definition return_value : Db.callback prop := fun v _ _ => ret v.

(** A callback that rebinds [b] during the first call. *)
Definition set_b_on_first_call : Db.callback prop :=
  fun v _ i => _ <- (if Nat.eqb i 0 then Db.set example_db "b" (JNum 5) else ret tt) ;; ret v.

(** A callback that only returns its key argument. *)
Definition return_key : Db.callback (option string) := fun _ k _ => ret k.

(** ** Notions for the stored document *)

(** What [_write] leaves in the file for a document: zero bytes for no
    keys, the dump otherwise. *)
Definition stored (d : ydoc) : contents :=
  match d with [] => Empty | _ => Yaml d end.

(** [k in obj], read on the stored document. *)
Definition yin (k : string) (d : ydoc) : bool :=
  match ylookup k d with Some _ => true | None => is_proto_name k end.

(** [obj[k] = v], read on the stored document. *)
Definition ydoc_assign (d : ydoc) (k : string) (y : yval) : ydoc :=
  match ylookup k d with
  | Some _ => ydoc_set d k y
  | None => if String.eqb k "__proto__" then d else add_key d k y
  end.

(** [delete obj[k]], read on the stored document. *)
Definition ydoc_delete (d : ydoc) (k : string) : ydoc :=
  filter (fun p => negb (String.eqb (fst p) k)) d.

(** The order of two keys in property order. *)
Definition key_le (k k' : string) : bool :=
  match array_index k, array_index k' with
  | Some n, Some m => (n <=? m)%N
  | Some _, None => true
  | None, Some _ => false
  | None, None => true
  end.

(** Keys listed in property order. *)
Fixpoint keys_ordered (ks : list string) : Prop :=
  match ks with
  | [] => True
  | k :: r => Forall (fun k' => key_le k k' = true) r /\ keys_ordered r
  end.

(** A computation that never changes the file system. *)
Definition read_only {A} (m : M A) : Prop :=
  forall s, disk (snd (m s)) = disk s.

(** The pairs [pick] returns, read on the stored document. *)
Definition pick_spec (d : ydoc) (ks : list string) : list (string * option yval) :=
  flat_map (fun k => match ylookup k d with Some y => [(k, Some y)] | None => [] end) ks.

(** The document after seeding, read on the stored document: when its
    variable is not [in] the document, a default is added in property
    order to the document as loaded, which is written back. *)
Definition seed_spec (d : ydoc) (l : list DefValue) : ydoc :=
  fold_left (fun d' dv => if yin (variable dv) d' then d'
                          else add_key (yload d') (variable dv) (erase (value dv))) l d.

(** ** Lemmas on stored documents *)

Lemma ylookup_none_in k d : ylookup k d = None <-> ~ In k (List.map fst d).
Proof.
  induction d as [| [k' y] r IH]; simpl; [tauto |].
  destruct (String.eqb k' k) eqn:E.
  - apply String.eqb_eq in E. subst. split; [discriminate | tauto].
  - apply String.eqb_neq in E. rewrite IH. intuition.
Qed.

Lemma ylookup_app_new k y d : ylookup k d = None -> ylookup k (d ++ [(k, y)])%list = Some y.
Proof.
  induction d as [| [k' x] r IH]; simpl; intro H.
  - now rewrite String.eqb_refl.
  - destruct (String.eqb k' k); [discriminate | exact (IH H)].
Qed.

Lemma ydoc_set_absent d k y : ylookup k d = None -> ydoc_set d k y = d.
Proof.
  induction d as [| [k' x] r IH]; simpl; intro H; [reflexivity |].
  destruct (String.eqb k' k); [discriminate | now rewrite (IH H)].
Qed.

Lemma ydoc_delete_absent d k : ylookup k d = None -> ydoc_delete d k = d.
Proof.
  induction d as [| [k' x] r IH]; simpl; intro H; [reflexivity |].
  destruct (String.eqb k' k); [discriminate | simpl; now rewrite (IH H)].
Qed.

Lemma ydoc_delete_app_same d k y : ydoc_delete (d ++ [(k, y)])%list k = ydoc_delete d k.
Proof.
  unfold ydoc_delete. rewrite filter_app. simpl. rewrite String.eqb_refl. simpl.
  apply app_nil_r.
Qed.

Lemma ylookup_ydoc_set d k y w : ylookup k d = Some y -> ylookup k (ydoc_set d k w) = Some w.
Proof.
  induction d as [| [k' x] r IH]; simpl; intro H; [discriminate |].
  destruct (String.eqb k' k) eqn:E; simpl.
  - now rewrite String.eqb_refl.
  - rewrite E. exact (IH H).
Qed.

Lemma ydoc_set_set d k y w : ydoc_set (ydoc_set d k y) k w = ydoc_set d k w.
Proof.
  induction d as [| [k' x] r IH]; simpl; [reflexivity |].
  destruct (String.eqb k' k) eqn:E; simpl.
  - now rewrite String.eqb_refl, IH.
  - now rewrite E, IH.
Qed.

Lemma ydoc_set_keys d k y : List.map fst (ydoc_set d k y) = List.map fst d.
Proof.
  induction d as [| [k' x] r IH]; simpl; [reflexivity |].
  destruct (String.eqb k' k) eqn:E; simpl; rewrite IH; [| reflexivity].
  apply String.eqb_eq in E. now subst.
Qed.


(** ** Property order lemmas *)

Lemma key_le_refl k : key_le k k = true.
Proof. unfold key_le. destruct (array_index k); [apply N.leb_refl | reflexivity]. Qed.

Lemma key_le_trans a b c : key_le a b = true -> key_le b c = true -> key_le a c = true.
Proof.
  unfold key_le. destruct (array_index a), (array_index b), (array_index c);
    intros H1 H2; try discriminate; try reflexivity.
  apply N.leb_le in H1, H2. apply N.leb_le. lia.
Qed.

Lemma key_le_nonindex k k' : array_index k = None -> key_le k' k = true.
Proof. unfold key_le. intro E. rewrite E. destruct (array_index k'); reflexivity. Qed.

Lemma keys_ordered_app_inv l1 x l2 :
  keys_ordered (l1 ++ x :: l2) -> Forall (fun q => key_le q x = true) l1.
Proof.
  induction l1 as [| a r IH]; simpl; intros H; [constructor |].
  destruct H as [Hf Hr]. constructor; [| exact (IH Hr)].
  rewrite Forall_app in Hf. destruct Hf as [_ Hf]. now inversion Hf.
Qed.

Lemma keys_ordered_snoc l x :
  keys_ordered l -> Forall (fun q => key_le q x = true) l -> keys_ordered (l ++ [x]).
Proof.
  induction l as [| a r IH]; simpl; intros H Hx; [split; [constructor | exact I] |].
  destruct H as [Hf Hr]. inversion Hx as [| ? ? Ha Hx']; subst.
  split; [apply Forall_app; split; [exact Hf | constructor; [exact Ha | constructor]] |].
  exact (IH Hr Hx').
Qed.

Lemma Forall_perm {A} (P : A -> Prop) l1 l2 : Permutation l1 l2 -> Forall P l1 -> Forall P l2.
Proof.
  intros Hp H. rewrite Forall_forall in *. intros x Hx. apply H.
  eapply Permutation_in; [symmetry; exact Hp | exact Hx].
Qed.

Lemma ins_index_perm {A} n k (v : A) o : Permutation (ins_index n k v o) ((k, v) :: o).
Proof.
  induction o as [| [k' v'] r IH]; simpl; [reflexivity |].
  destruct (array_index k') as [m |]; [destruct (n <? m)%N |]; try reflexivity.
  eapply perm_trans; [apply perm_skip, IH | apply perm_swap].
Qed.

Lemma add_key_perm {A} o k (v : A) : Permutation (add_key o k v) ((k, v) :: o).
Proof.
  unfold add_key. destruct (array_index k); [apply ins_index_perm |].
  symmetry. apply Permutation_cons_append.
Qed.

Lemma js_order_perm {A} (l : list (string * A)) : Permutation (js_order l) l.
Proof.
  unfold js_order.
  assert (G : forall acc, Permutation (fold_left (fun o p => add_key o (fst p) (snd p)) l acc)
                                      (l ++ acc)).
  { induction l as [| [k v] r IH]; intro acc; simpl; [reflexivity |].
    eapply perm_trans; [apply IH |].
    eapply perm_trans; [apply Permutation_app_head, add_key_perm |].
    symmetry. apply Permutation_middle. }
  pose proof (G []) as H. now rewrite app_nil_r in H.
Qed.

Lemma ins_index_map {A B} (h : string * A -> B) n k v o :
  map (fun p => (fst p, h p)) (ins_index n k v o)
  = ins_index n k (h (k, v)) (map (fun p => (fst p, h p)) o).
Proof.
  induction o as [| [k' v'] r IH]; simpl; [reflexivity |].
  destruct (array_index k') as [m |]; [destruct (n <? m)%N |]; simpl; rewrite ?IH; reflexivity.
Qed.

Lemma add_key_map {A B} (h : string * A -> B) o k v :
  map (fun p => (fst p, h p)) (add_key o k v) = add_key (map (fun p => (fst p, h p)) o) k (h (k, v)).
Proof.
  unfold add_key. destruct (array_index k); [apply ins_index_map |].
  rewrite map_app. reflexivity.
Qed.

Lemma js_order_map {A B} (f : A -> B) (l : list (string * A)) :
  map (fun p => (fst p, f (snd p))) (js_order l) = js_order (map (fun p => (fst p, f (snd p))) l).
Proof.
  unfold js_order.
  assert (G : forall acc,
    map (fun p => (fst p, f (snd p))) (fold_left (fun o p => add_key o (fst p) (snd p)) l acc)
    = fold_left (fun o p => add_key o (fst p) (snd p)) (map (fun p => (fst p, f (snd p))) l)
        (map (fun p => (fst p, f (snd p))) acc)).
  { induction l as [| [k v] r IH]; intro acc; simpl; [reflexivity |].
    rewrite IH. f_equal. exact (add_key_map (fun p => f (snd p)) acc k v). }
  exact (G []).
Qed.

Lemma ins_index_ordered {A} n k (v : A) o :
  array_index k = Some n -> keys_ordered (map fst o) -> keys_ordered (map fst (ins_index n k v o)).
Proof.
  intros Hk. induction o as [| [k' v'] r IH]; simpl; intro Ho; [split; [constructor | exact I] |].
  destruct Ho as [Hf Hr]. destruct (array_index k') as [m |] eqn:Ek'.
  - destruct (n <? m)%N eqn:Enm.
    + apply N.ltb_lt in Enm.
      assert (Hkk : key_le k k' = true) by (unfold key_le; rewrite Hk, Ek'; apply N.leb_le; lia).
      simpl. split; [| split; assumption]. constructor; [exact Hkk |].
      eapply Forall_impl; [| exact Hf]. intros q Hq. exact (key_le_trans _ _ _ Hkk Hq).
    + apply N.ltb_ge in Enm. simpl. split; [| exact (IH Hr)].
      apply (Forall_perm _ (map fst ((k, v) :: r))).
      * symmetry. apply Permutation_map, ins_index_perm.
      * simpl. constructor; [| exact Hf]. unfold key_le. rewrite Ek', Hk. apply N.leb_le. lia.
  - simpl. split; [| split; assumption]. constructor.
    + unfold key_le. now rewrite Hk, Ek'.
    + eapply Forall_impl; [| exact Hf]. intros q Hq. unfold key_le in *. rewrite Ek' in Hq.
      rewrite Hk. destruct (array_index q); [discriminate | reflexivity].
Qed.

Lemma add_key_ordered {A} k (v : A) o :
  keys_ordered (map fst o) -> keys_ordered (map fst (add_key o k v)).
Proof.
  unfold add_key. destruct (array_index k) eqn:E; [now apply ins_index_ordered |].
  intro H. rewrite map_app. simpl. apply keys_ordered_snoc; [exact H |].
  apply Forall_forall. intros q _. exact (key_le_nonindex k q E).
Qed.

Lemma js_order_ordered {A} (l : list (string * A)) : keys_ordered (map fst (js_order l)).
Proof.
  unfold js_order.
  assert (G : forall acc, keys_ordered (map fst acc) ->
    keys_ordered (map fst (fold_left (fun o p => add_key o (fst p) (snd p)) l acc))).
  { induction l as [| p r IH]; intros acc H; simpl; [exact H |].
    apply IH, add_key_ordered, H. }
  apply G. exact I.
Qed.

Lemma add_key_last {A} k (v : A) o :
  Forall (fun q => key_le q k = true) (map fst o) -> add_key o k v = (o ++ [(k, v)])%list.
Proof.
  unfold add_key. destruct (array_index k) as [n |] eqn:E; [| reflexivity].
  induction o as [| [k' v'] r IH]; simpl; intro H; [reflexivity |].
  inversion H as [| ? ? Hk' Hr]; subst. unfold key_le in Hk'. rewrite E in Hk'.
  destruct (array_index k') as [m |]; [| discriminate].
  apply N.leb_le in Hk'. replace ((n <? m)%N) with false by (symmetry; apply N.ltb_ge; lia).
  rewrite (IH Hr). reflexivity.
Qed.

Lemma js_order_id {A} (l : list (string * A)) : keys_ordered (map fst l) -> js_order l = l.
Proof.
  intro H. unfold js_order.
  assert (G : forall (r acc : list (string * A)), keys_ordered (map fst (acc ++ r)) ->
            fold_left (fun o p => add_key o (fst p) (snd p)) r acc = (acc ++ r)%list).
  { induction r as [| [k v] r IH]; intros acc Ho; simpl; [now rewrite app_nil_r |].
    rewrite map_app in Ho. simpl in Ho.
    rewrite add_key_last by exact (keys_ordered_app_inv _ _ _ Ho).
    rewrite IH; [now rewrite <- app_assoc |].
    rewrite <- app_assoc, map_app. exact Ho. }
  exact (G l [] H).
Qed.

Lemma own_add_key_new o k v : own k o = None -> own k (add_key o k v) = Some v.
Proof.
  unfold add_key. destruct (array_index k) as [n |].
  - induction o as [| [k1 v1] r IH]; simpl; intro H; [now rewrite String.eqb_refl |].
    destruct (String.eqb k1 k) eqn:E1; [discriminate |].
    destruct (array_index k1) as [m |]; [destruct (n <? m)%N |]; simpl;
      rewrite ?String.eqb_refl, ?E1; try reflexivity. exact (IH H).
  - induction o as [| [k1 v1] r IH]; simpl; intro H; [now rewrite String.eqb_refl |].
    destruct (String.eqb k1 k); [discriminate | exact (IH H)].
Qed.

Lemma ylookup_app k (l1 l2 : ydoc) :
  ylookup k (l1 ++ l2)%list = match ylookup k l1 with Some x => Some x | None => ylookup k l2 end.
Proof.
  induction l1 as [| [k' y] r IH]; simpl; [reflexivity |].
  destruct (String.eqb k' k); [reflexivity | exact IH].
Qed.

Lemma not_in_after k1 ks k :
  keys_ordered (k1 :: ks) -> key_le k1 k = false -> ~ In k (k1 :: ks).
Proof.
  intros [Hf _] Hle [E | Hin].
  - subst. rewrite key_le_refl in Hle. discriminate.
  - rewrite Forall_forall in Hf. rewrite (Hf k Hin) in Hle. discriminate.
Qed.

Lemma ylookup_add_key o k k' y :
  keys_ordered (map fst o) ->
  ylookup k (add_key o k' y)
  = match ylookup k o with Some x => Some x | None => if String.eqb k' k then Some y else None end.
Proof.
  unfold add_key. destruct (array_index k') as [n |] eqn:E.
  - induction o as [| [k1 v1] r IH]; simpl; intro Ho.
    + destruct (String.eqb k' k); reflexivity.
    + assert (Hfront : key_le k1 k' = false ->
                ylookup k ((k', y) :: (k1, v1) :: r)
                = match (if String.eqb k1 k then Some v1 else ylookup k r) with
                  | Some x => Some x | None => if String.eqb k' k then Some y else None end).
      { intro Hle. pose proof (not_in_after _ _ _ Ho Hle) as Hni. simpl.
        destruct (String.eqb k' k) eqn:Ek.
        - apply String.eqb_eq in Ek. subst k.
          assert (Hr : ylookup k' ((k1, v1) :: r) = None) by (apply ylookup_none_in; exact Hni).
          simpl in Hr. now rewrite Hr.
        - destruct (String.eqb k1 k); [reflexivity |]. now destruct (ylookup k r). }
      destruct (array_index k1) as [m |] eqn:E1; [destruct (n <? m)%N eqn:Enm |].
      * apply Hfront. unfold key_le. rewrite E1, E. apply N.leb_gt. now apply N.ltb_lt.
      * simpl. destruct (String.eqb k1 k); [reflexivity |]. exact (IH (proj2 Ho)).
      * apply Hfront. unfold key_le. now rewrite E1, E.
  - intros _. rewrite ylookup_app. simpl. destruct (ylookup k o); reflexivity.
Qed.

Lemma option_map_none {A B} (f : A -> B) (x : option A) : option_map f x = None <-> x = None.
Proof. destruct x; simpl; split; congruence. Qed.

Lemma ylookup_map_vals (f : yval -> yval) k d :
  ylookup k (List.map (fun p => (fst p, f (snd p))) d) = option_map f (ylookup k d).
Proof.
  induction d as [| [k' y] r IH]; simpl; [reflexivity |].
  destruct (String.eqb k' k); [reflexivity | exact IH].
Qed.

Lemma ylookup_js_order (l : ydoc) k : ylookup k (js_order l) = ylookup k l.
Proof.
  unfold js_order.
  assert (G : forall acc, keys_ordered (List.map fst acc) ->
    ylookup k (fold_left (fun o p => add_key o (fst p) (snd p)) l acc)
    = match ylookup k acc with Some x => Some x | None => ylookup k l end).
  { induction l as [| [k1 v1] r IH]; intros acc Ho; simpl.
    - destruct (ylookup k acc); reflexivity.
    - rewrite IH by (apply add_key_ordered; exact Ho). rewrite ylookup_add_key by exact Ho.
      destruct (ylookup k acc); [reflexivity |]. destruct (String.eqb k1 k); reflexivity. }
  exact (G [] I).
Qed.

Lemma ylookup_yload k d : ylookup k (yload d) = option_map ynorm (ylookup k d).
Proof. unfold yload. rewrite ylookup_js_order. apply ylookup_map_vals. Qed.

Lemma yin_yload k d : yin k (yload d) = yin k d.
Proof. unfold yin. rewrite ylookup_yload. now destruct (ylookup k d). Qed.

Lemma yload_keys_perm d : Permutation (List.map fst (yload d)) (List.map fst d).
Proof.
  unfold yload. eapply perm_trans; [apply Permutation_map, js_order_perm |].
  rewrite List.map_map. reflexivity.
Qed.

Lemma yload_nodup d : NoDup (List.map fst d) -> NoDup (List.map fst (yload d)).
Proof. intro H. eapply Permutation_NoDup; [symmetry; apply yload_keys_perm | exact H]. Qed.

Lemma yload_length d : List.length (yload d) = List.length d.
Proof.
  rewrite <- (List.length_map fst (yload d)), <- (List.length_map fst d).
  apply Permutation_length, yload_keys_perm.
Qed.

Lemma yload_nil d : yload d = [] <-> d = [].
Proof.
  split; intro H.
  - destruct d as [| p r]; [reflexivity |]. pose proof (yload_length (p :: r)) as L.
    rewrite H in L. discriminate.
  - now subst.
Qed.

Lemma yload_ordered d : keys_ordered (List.map fst (yload d)).
Proof. apply js_order_ordered. Qed.

Lemma ynorm_idem y : ynorm (ynorm y) = ynorm y.
Proof.
  induction y as [| | | | xs IH | fs IH] using yval_ind'; simpl; try reflexivity.
  - rewrite List.map_map. f_equal. apply map_ext_Forall. exact IH.
  - f_equal. rewrite js_order_map, List.map_map.
    rewrite js_order_id by apply js_order_ordered.
    f_equal. apply map_ext_Forall. eapply Forall_impl; [| exact IH].
    intros [k y] H. simpl in *. now rewrite H.
Qed.

Lemma yload_canon D :
  List.map (fun p => (fst p, ynorm (snd p))) D = D -> keys_ordered (List.map fst D) -> yload D = D.
Proof. intros HV HO. unfold yload. rewrite HV. apply js_order_id, HO. Qed.

Lemma yload_vals d : List.map (fun p => (fst p, ynorm (snd p))) (yload d) = yload d.
Proof.
  unfold yload. rewrite js_order_map, List.map_map. f_equal.
  apply map_ext. intros [k y]. simpl. now rewrite ynorm_idem.
Qed.

Lemma yload_idem d : yload (yload d) = yload d.
Proof. apply yload_canon; [apply yload_vals | apply yload_ordered]. Qed.

Lemma ydoc_set_map_vals (f : yval -> yval) d k y :
  List.map (fun p => (fst p, f (snd p))) (ydoc_set d k y)
  = ydoc_set (List.map (fun p => (fst p, f (snd p))) d) k (f y).
Proof.
  induction d as [| [k' x] r IH]; simpl; [reflexivity |].
  destruct (String.eqb k' k); simpl; now rewrite IH.
Qed.

Lemma ydoc_set_as_map d k w :
  ydoc_set d k w = List.map (fun p => (fst p, if String.eqb (fst p) k then w else snd p)) d.
Proof.
  unfold ydoc_set. apply map_ext. intros [k' x]. simpl.
  destruct (String.eqb k' k) eqn:Ek; [apply String.eqb_eq in Ek; now subst | reflexivity].
Qed.

Lemma ydoc_set_add_key D k y w :
  ylookup k D = None -> ydoc_set (add_key D k y) k w = add_key D k w.
Proof.
  intro E. pose proof (add_key_map (fun p => if String.eqb (fst p) k then w else snd p) D k y) as A.
  cbv beta in A. simpl in A. rewrite String.eqb_refl in A.
  rewrite ydoc_set_as_map, A, <- ydoc_set_as_map, (ydoc_set_absent D k w E). reflexivity.
Qed.

Lemma ydoc_delete_add_key D k y : ydoc_delete (add_key D k y) k = ydoc_delete D k.
Proof.
  unfold add_key. destruct (array_index k) as [n |]; [| apply ydoc_delete_app_same].
  unfold ydoc_delete. induction D as [| [k1 v1] r IH]; simpl.
  - now rewrite String.eqb_refl.
  - destruct (array_index k1) as [m |]; [destruct (n <? m)%N |]; simpl;
      rewrite ?String.eqb_refl; simpl; try reflexivity.
    destruct (String.eqb k1 k); simpl; now rewrite IH.
Qed.

Lemma ydoc_assign_assign d k y w :
  keys_ordered (List.map fst d) -> ydoc_assign (ydoc_assign d k y) k w = ydoc_assign d k w.
Proof.
  intro Ho. unfold ydoc_assign at 2 3. destruct (ylookup k d) as [x |] eqn:E.
  - unfold ydoc_assign. rewrite (ylookup_ydoc_set d k x y E). apply ydoc_set_set.
  - destruct (String.eqb k "__proto__") eqn:Ep.
    + unfold ydoc_assign. now rewrite E, Ep.
    + unfold ydoc_assign. rewrite ylookup_add_key by exact Ho. rewrite E, String.eqb_refl.
      now apply ydoc_set_add_key.
Qed.

Lemma yload_assign d k y : yload (ydoc_assign (yload d) k y) = ydoc_assign (yload d) k (ynorm y).
Proof.
  unfold ydoc_assign. destruct (ylookup k (yload d)) as [x |] eqn:E.
  - unfold yload at 1. rewrite ydoc_set_map_vals, yload_vals.
    apply js_order_id. rewrite ydoc_set_keys. apply yload_ordered.
  - destruct (String.eqb k "__proto__"); [apply yload_idem |].
    unfold yload at 1.
    pose proof (add_key_map (fun p => ynorm (snd p)) (yload d) k y) as A. cbv beta in A. simpl in A.
    rewrite A, yload_vals. apply js_order_id, add_key_ordered, yload_ordered.
Qed.

(** ** Allocation lemmas *)

Lemma alloc_YSeq n xs :
  alloc n (YSeq xs) = let '(vs, n') := alloc_list (S n) xs in (JArr n vs, n').
Proof. reflexivity. Qed.

Lemma alloc_YMap n fs :
  alloc n (YMap fs) = let '(ps, n') := alloc_fields (S n) fs in (JObj n ps, n').
Proof. reflexivity. Qed.

Lemma alloc_mono y : forall n, n <= snd (alloc n y).
Proof.
  induction y as [| b | z | str | xs IH | fs IH] using yval_ind'; intro n;
    try (simpl; lia).
  - rewrite alloc_YSeq.
    assert (H : forall m, m <= snd (alloc_list m xs)).
    { induction IH as [| x r Hx _ IHr]; intro m; simpl; [lia |].
      specialize (Hx m). destruct (alloc m x) as [v m1] eqn:E1. simpl in Hx.
      specialize (IHr m1). destruct (alloc_list m1 r) as [vs m2]. simpl in *. lia. }
    specialize (H (S n)). destruct (alloc_list (S n) xs). simpl in *. lia.
  - rewrite alloc_YMap.
    assert (H : forall m, m <= snd (alloc_fields m fs)).
    { induction IH as [| [k x] r Hx _ IHr]; intro m; simpl; [lia |].
      specialize (Hx m). simpl in Hx. destruct (alloc m x) as [v m1] eqn:E1. simpl in Hx.
      specialize (IHr m1). destruct (alloc_fields m1 r) as [ps m2]. simpl in *. lia. }
    specialize (H (S n)). destruct (alloc_fields (S n) fs). simpl in *. lia.
Qed.

Lemma erase_alloc y : forall n, erase (fst (alloc n y)) = y.
Proof.
  induction y as [| b | z | str | xs IH | fs IH] using yval_ind'; intro n;
    try reflexivity.
  - rewrite alloc_YSeq.
    assert (H : forall m, List.map erase (fst (alloc_list m xs)) = xs).
    { induction IH as [| x r Hx _ IHr]; intro m; simpl; [reflexivity |].
      specialize (Hx m). destruct (alloc m x) as [v m1]. simpl in Hx.
      specialize (IHr m1). destruct (alloc_list m1 r) as [vs m2]. simpl in *.
      now rewrite Hx, IHr. }
    specialize (H (S n)). destruct (alloc_list (S n) xs). simpl in *. now rewrite H.
  - rewrite alloc_YMap.
    assert (H : forall m, List.map (fun p => (fst p, erase (snd p))) (fst (alloc_fields m fs)) = fs).
    { induction IH as [| [k x] r Hx _ IHr]; intro m; simpl; [reflexivity |].
      specialize (Hx m). simpl in Hx. destruct (alloc m x) as [v m1]. simpl in Hx.
      specialize (IHr m1). destruct (alloc_fields m1 r) as [ps m2]. simpl in *.
      now rewrite Hx, IHr. }
    specialize (H (S n)). destruct (alloc_fields (S n) fs). simpl in *. now rewrite H.
Qed.

Lemma fresh_from_le n m v : n <= m -> fresh_from m v -> fresh_from n v.
Proof. destruct v; simpl; auto; lia. Qed.

Lemma alloc_fresh n y : fresh_from n (fst (alloc n y)).
Proof.
  destruct y; try exact I.
  - rewrite alloc_YSeq. destruct (alloc_list (S n) xs). simpl. lia.
  - rewrite alloc_YMap. destruct (alloc_fields (S n) fs). simpl. lia.
Qed.

Lemma alloc_list_fresh xs : forall m, Forall (fresh_from m) (fst (alloc_list m xs)).
Proof.
  induction xs as [| x r IH]; intro m; simpl; [constructor |].
  pose proof (alloc_fresh m x) as Hf. pose proof (alloc_mono x m) as Hm.
  destruct (alloc m x) as [v m1]. simpl in *.
  specialize (IH m1). destruct (alloc_list m1 r) as [vs m2]. simpl in *.
  constructor; [exact Hf |].
  eapply Forall_impl; [| exact IH]. intros w Hw. eapply fresh_from_le; eauto.
Qed.

Lemma bool_eqb_sym x y : Bool.eqb x y = Bool.eqb y x.
Proof. now destruct x, y. Qed.

Lemma strict_eq_sym a b : strict_eq a b = strict_eq b a.
Proof.
  destruct a, b; simpl; auto.
  - apply bool_eqb_sym.
  - apply Z.eqb_sym.
  - apply String.eqb_sym.
  - apply Nat.eqb_sym.
  - apply Nat.eqb_sym.
Qed.

(** A freshly decoded element is [===] to an older caller value exactly
    when they are equal scalars. *)
Lemma strict_eq_fresh n v a :
  fresh_from n v -> allocated_before n a = true ->
  strict_eq v a = scalar_match a (erase v).
Proof.
  intros Hv Ha. destruct v, a; simpl in *; auto.
  - apply bool_eqb_sym.
  - apply Z.eqb_sym.
  - apply String.eqb_sym.
  - apply Nat.ltb_lt in Ha. apply Nat.eqb_neq. lia.
  - apply Nat.ltb_lt in Ha. apply Nat.eqb_neq. lia.
Qed.

(** ** Loaded documents *)

Lemma alloc_doc_erase d : forall n, erase_doc (fst (alloc_doc n d)) = d.
Proof.
  induction d as [| [k y] r IH]; intro n; simpl; [reflexivity |].
  pose proof (erase_alloc y n) as He.
  destruct (alloc n y) as [v n1]. simpl in He.
  specialize (IH n1). destruct (alloc_doc n1 r) as [o n2]. simpl in *.
  unfold erase_doc in *. simpl. now rewrite He, IH.
Qed.

Lemma alloc_doc_keys d : forall n, List.map fst (fst (alloc_doc n d)) = List.map fst d.
Proof.
  induction d as [| [k y] r IH]; intro n; simpl; [reflexivity |].
  destruct (alloc n y) as [v n1].
  specialize (IH n1). destruct (alloc_doc n1 r) as [o n2]. simpl in *. now rewrite IH.
Qed.

Lemma alloc_doc_mono d : forall n, n <= snd (alloc_doc n d).
Proof.
  induction d as [| [k y] r IH]; intro n; simpl; [lia |].
  pose proof (alloc_mono y n) as Hm.
  destruct (alloc n y) as [v n1]. simpl in Hm.
  specialize (IH n1). destruct (alloc_doc n1 r) as [o n2]. simpl in *. lia.
Qed.

Lemma alloc_doc_own d k y : forall n,
  ylookup k d = Some y ->
  exists m, n <= m /\ own k (fst (alloc_doc n d)) = Some (fst (alloc m y)).
Proof.
  induction d as [| [k' y'] r IH]; intros n H; simpl in *; [discriminate |].
  pose proof (alloc_mono y' n) as Hm.
  destruct (alloc n y') as [v n1] eqn:E. simpl in Hm.
  specialize (IH n1). destruct (alloc_doc n1 r) as [o n2]. simpl.
  destruct (String.eqb k' k).
  - injection H as <-. exists n. split; [lia |]. now rewrite E.
  - destruct (IH H) as [m [Hle Ho]]. exists m. split; [lia | exact Ho].
Qed.

Lemma own_erase k o : ylookup k (erase_doc o) = option_map erase (own k o).
Proof.
  induction o as [| [k' v] r IH]; simpl; [reflexivity |].
  destruct (String.eqb k' k); [reflexivity | exact IH].
Qed.

Lemma own_none_in k o : own k o = None <-> ~ In k (List.map fst o).
Proof.
  induction o as [| [k' v] r IH]; simpl; [tauto |].
  destruct (String.eqb k' k) eqn:E.
  - apply String.eqb_eq in E. subst. split; [discriminate | tauto].
  - apply String.eqb_neq in E. rewrite IH. split; intros H; [intros [H1 | H1]; auto | auto].
Qed.

(** Updating an own key. *)
Lemma own_js_set_same o k v : own k o <> None -> own k (js_set o k v) = Some v.
Proof.
  intro H. unfold js_set. destruct (own k o) eqn:E; [clear H | congruence].
  induction o as [| [k' x] r IH]; simpl in *; [discriminate |].
  destruct (String.eqb k' k) eqn:Ek; simpl.
  - now rewrite String.eqb_refl.
  - rewrite Ek. apply IH; auto.
Qed.

Lemma own_js_set_other o k k' v :
  own k o <> None -> k' <> k -> own k' (js_set o k v) = own k' o.
Proof.
  intros H Hne. unfold js_set. destruct (own k o); [clear H | congruence].
  induction o as [| [k0 x] r IH]; simpl; [reflexivity |].
  destruct (String.eqb k0 k) eqn:Ek; simpl.
  - apply String.eqb_eq in Ek. subst k0.
    destruct (String.eqb k k') eqn:E'; [apply String.eqb_eq in E'; congruence | exact IH].
  - destruct (String.eqb k0 k'); [reflexivity | exact IH].
Qed.

Lemma js_set_keys o k v : own k o <> None -> List.map fst (js_set o k v) = List.map fst o.
Proof.
  intro H. unfold js_set. destruct (own k o); [clear H | congruence].
  induction o as [| [k0 x] r IH]; simpl; [reflexivity |].
  destruct (String.eqb k0 k) eqn:Ek; simpl.
  - apply String.eqb_eq in Ek. now rewrite Ek, IH.
  - now rewrite IH.
Qed.

Lemma js_set_js_set o k v w :
  own k o <> None -> js_set (js_set o k v) k w = js_set o k w.
Proof.
  intro H. pose proof (own_js_set_same o k v H) as H1.
  unfold js_set at 1. rewrite H1. unfold js_set.
  destruct (own k o); [clear H H1 | congruence].
  rewrite List.map_map. apply List.map_ext. intros [k0 x]. simpl.
  destruct (String.eqb k0 k) eqn:Ek; simpl; [now rewrite String.eqb_refl | now rewrite Ek].
Qed.

Lemma js_set_own_id o k v :
  NoDup (List.map fst o) -> own k o = Some v -> js_set o k v = o.
Proof.
  intros Hnd H. unfold js_set. rewrite H.
  induction o as [| [k0 x] r IH]; simpl in *; [discriminate |].
  inversion Hnd as [| ? ? Hnin Hnd']; subst.
  destruct (String.eqb k0 k) eqn:Ek.
  - apply String.eqb_eq in Ek. subst k0. injection H as ->. f_equal.
    clear IH Hnd Hnd'. induction r as [| [k1 y] r' IHr]; simpl in *; [reflexivity |].
    destruct (String.eqb k1 k) eqn:E1.
    + apply String.eqb_eq in E1. subst. tauto.
    + f_equal. apply IHr. tauto.
  - f_equal. apply IH; auto.
Qed.

Lemma erase_js_set o k v :
  own k o <> None -> erase_doc (js_set o k v) = ydoc_set (erase_doc o) k (erase v).
Proof.
  intro H. unfold js_set. destruct (own k o); [clear H | congruence].
  unfold erase_doc, ydoc_set. rewrite !List.map_map. apply List.map_ext.
  intros [k0 x]. simpl. destruct (String.eqb k0 k); reflexivity.
Qed.

(** ** [pull] *)

Lemma filter_filter_and {A} (f g : A -> bool) l :
  filter f (filter g l) = filter (fun x => g x && f x) l.
Proof.
  induction l as [| x r IH]; simpl; [reflexivity |].
  destruct (g x); simpl; [destruct (f x); simpl; now rewrite IH | exact IH].
Qed.

Lemma pull_loop_spec k vals : forall data j xs s,
  NoDup (List.map fst data) ->
  own k data = Some (JArr j xs) ->
  exists j' s',
    Db.pull_loop k vals data s = (Ok (js_set data k (JArr j' (filter (keep_after vals) xs))), s')
    /\ disk s' = disk s /\ log s' = log s.
Proof.
  induction vals as [| a r IH]; intros data j xs s Hnd Hown.
  - exists j, s. simpl. split; [| auto].
    rewrite (filter_ext _ (fun _ => true)) by reflexivity.
    rewrite List.filter_true. now rewrite js_set_own_id.
  - assert (Hget : js_get k data = PVal (JArr j xs)) by (unfold js_get; now rewrite Hown).
    assert (Hsome : own k data <> None) by congruence.
    simpl. unfold bind, lift. rewrite Hget. simpl.
    destruct (existsb (same_value_zero a) xs) eqn:Hinc.
    + unfold bind, fresh, ret. simpl.
      set (xs1 := filter (fun v => negb (strict_eq v a)) xs).
      set (s1 := set_next (S (next_id s)) s).
      destruct (IH (js_set data k (JArr (next_id s) xs1)) (next_id s) xs1 s1)
        as [j' [s' [Hrun [Hd Hl]]]].
      { now rewrite js_set_keys. }
      { now apply own_js_set_same. }
      exists j', s'. rewrite Hrun. split; [| split; [exact Hd | exact Hl]].
      rewrite js_set_js_set by exact Hsome. unfold xs1.
      rewrite filter_filter_and. reflexivity.
    + destruct (IH data j xs s Hnd Hown) as [j' [s' [Hrun [Hd Hl]]]].
      exists j', s'. rewrite Hrun. split; [| auto].
      do 4 f_equal. apply filter_ext_in. intros v Hv. simpl.
      assert (Hne : strict_eq v a = false).
      { rewrite strict_eq_sym. destruct (strict_eq a v) eqn:E; [| reflexivity].
        exfalso. assert (existsb (same_value_zero a) xs = true).
        { apply existsb_exists. exists v. split; [exact Hv | exact E]. }
        congruence. }
      now rewrite Hne.
Qed.

Lemma load_yaml db s d :
  disk s (path db) = Some (Yaml d) ->
  Db._load db s =
    (Ok (fst (alloc_doc (next_id s) (yload d))),
     set_next (snd (alloc_doc (next_id s) (yload d))) (add_event (ERead (path db)) s)).
Proof.
  intro H. unfold Db._load. rewrite H. simpl. now destruct (alloc_doc (next_id s) (yload d)).
Qed.

Lemma load_empty db s :
  disk s (path db) = Some Empty ->
  Db._load db s = (Ok [], add_event (ERead (path db)) s).
Proof. intro H. unfold Db._load. now rewrite H. Qed.

Lemma keep_after_erase n vals vs :
  Forall (fresh_from n) vs ->
  Forall (fun a => allocated_before n a = true) vals ->
  List.map erase (filter (keep_after vals) vs) = pull_spec (List.map erase vs) vals.
Proof.
  intros Hvs Hvals. induction Hvs as [| v r Hv _ IH]; simpl; [reflexivity |].
  assert (E : keep_after vals v = forallb (fun a => negb (scalar_match a (erase v))) vals).
  { unfold keep_after. clear IH. induction Hvals as [| a q Ha _ IHq]; simpl; [reflexivity |].
    rewrite (strict_eq_fresh n v a Hv Ha). now rewrite IHq. }
  rewrite E. destruct (forallb _ vals); simpl; [now rewrite IH | exact IH].
Qed.

Lemma ylookup_keys k d y : ylookup k d = Some y -> List.map fst d <> [].
Proof. destruct d; simpl; [discriminate | discriminate]. Qed.

Lemma scalar_match_ynorm a y : scalar_match a (ynorm y) = scalar_match a y.
Proof. destruct a, y; reflexivity. Qed.

Lemma pull_spec_ynorm ys vals : pull_spec (List.map ynorm ys) vals = List.map ynorm (pull_spec ys vals).
Proof.
  unfold pull_spec. induction ys as [| y r IH]; simpl; [reflexivity |].
  assert (E : forallb (fun a => negb (scalar_match a (ynorm y))) vals
              = forallb (fun a => negb (scalar_match a y)) vals).
  { clear IH. induction vals as [| a q IHq]; simpl; [reflexivity |]. now rewrite scalar_match_ynorm, IHq. }
  rewrite E. destruct (forallb (fun a => negb (scalar_match a y)) vals); simpl; now rewrite IH.
Qed.

(** C1 (amended): on a key bound to a sequence, [pull] removes every
    element [===] to one of the given values (equal scalars; a sequence or
    mapping argument is never the object just decoded from the file, so it
    removes nothing), writes the file exactly once (the document as loaded,
    the key rebound to the kept elements as js-yaml builds them) and returns
    the new length. *)
Theorem pull_removes_strictly_equal (db : QuickYAML) (s : St) (d : ydoc) (k : string)
  (ys : list yval) (vals : list jsval) :
  disk s (path db) = Some (Yaml d) ->
  NoDup (List.map fst d) ->
  ylookup k d = Some (YSeq ys) ->
  Forall (fun a => allocated_before (next_id s) a = true) vals ->
  exists s',
    Db.pull db k vals s = (Ok (PVal (JNum (Z.of_nat (List.length (pull_spec ys vals))))), s')
    /\ disk s' (path db) = Some (Yaml (ydoc_set (yload d) k (ynorm (YSeq (pull_spec ys vals)))))
    /\ log s' = ([EWrite (path db) (Yaml (ydoc_set (yload d) k (ynorm (YSeq (pull_spec ys vals)))));
                 EDump; ERead (path db); ERead (path db)] ++ log s)%list.
Proof.
  intros Hdisk Hnd Hk Hvals.
  set (D := yload d).
  assert (HkD : ylookup k D = Some (YSeq (List.map ynorm ys))) by (unfold D; now rewrite ylookup_yload, Hk).
  assert (HndD : NoDup (List.map fst D)) by (apply yload_nodup, Hnd).
  unfold Db.pull, Db.toJSON, bind at 1. rewrite (load_yaml db s d Hdisk). fold D.
  set (N := next_id s).
  destruct (alloc_doc N D) as [o n1] eqn:Ea. simpl.
  set (s1 := set_next n1 (add_event (ERead (path db)) s)).
  assert (Hd1 : disk s1 (path db) = Some (Yaml d)) by exact Hdisk.
  unfold bind at 1, Db.has, bind at 1. unfold Db.toJSON. rewrite (load_yaml db s1 d Hd1). fold D.
  destruct (alloc_doc (next_id s1) D) as [o2 n2] eqn:Ea2. simpl.
  destruct (alloc_doc_own D k _ (next_id s1) HkD) as [m2 [_ Ho2]].
  rewrite Ea2 in Ho2. simpl in Ho2.
  assert (Hin : js_in k o2 = true) by (unfold js_in; now rewrite Ho2).
  rewrite Hin. simpl.
  destruct (alloc_doc_own D k _ N HkD) as [m [Hm Ho]].
  rewrite Ea in Ho. cbn [fst] in Ho. rewrite alloc_YSeq in Ho.
  pose proof (alloc_list_fresh (List.map ynorm ys) (S m)) as Hfresh.
  pose proof (erase_alloc (YSeq (List.map ynorm ys)) m) as Her. rewrite alloc_YSeq in Her.
  destruct (alloc_list (S m) (List.map ynorm ys)) as [vs n3] eqn:Ev. simpl in Ho, Hfresh, Her.
  injection Her as Her.
  assert (Hkeys : List.map fst o = List.map fst D).
  { pose proof (alloc_doc_keys D N) as Hk'. now rewrite Ea in Hk'. }
  assert (Hero : erase_doc o = D).
  { pose proof (alloc_doc_erase D N) as He. now rewrite Ea in He. }
  assert (Hndo : NoDup (List.map fst o)) by now rewrite Hkeys.
  set (s2 := set_next n2 (add_event (ERead (path db)) s1)).
  destruct (pull_loop_spec k vals o m vs s2 Hndo Ho) as [j' [s' [Hrun [Hds Hls]]]].
  assert (Hsome : own k o <> None) by congruence.
  assert (Hspec : List.map erase (filter (keep_after vals) vs) = List.map ynorm (pull_spec ys vals)).
  { rewrite <- pull_spec_ynorm, <- Her. apply (keep_after_erase N).
    - eapply Forall_impl; [| exact Hfresh]. intros w Hw. eapply fresh_from_le; [| exact Hw]. lia.
    - exact Hvals. }
  set (o' := js_set o k (JArr j' (filter (keep_after vals) vs))).
  assert (Hlen : Nat.leb (List.length o') 0 = false).
  { apply Nat.leb_gt. unfold o'. rewrite <- (List.length_map fst), js_set_keys by exact Hsome.
    rewrite Hkeys. destruct (List.map fst D) eqn:E; [exact (False_ind _ (ylookup_keys k D _ HkD E)) | simpl; lia]. }
  assert (Hfile : erase_doc o' = ydoc_set D k (ynorm (YSeq (pull_spec ys vals)))).
  { unfold o'. rewrite erase_js_set by exact Hsome. rewrite Hero. simpl. now rewrite Hspec. }
  unfold bind at 1. rewrite Hrun. fold o'.
  unfold bind, Db._write. rewrite Hds. change (disk s2 (path db)) with (disk s (path db)).
  rewrite Hdisk, Hlen. simpl.
  assert (Hget : js_get k o' = PVal (JArr j' (filter (keep_after vals) vs))).
  { unfold js_get, o'. now rewrite own_js_set_same. }
  rewrite Hget. simpl.
  rewrite <- (List.length_map erase (filter (keep_after vals) vs)), Hspec, List.length_map.
  eexists. split; [reflexivity |]. simpl. rewrite String.eqb_refl. split.
  - now rewrite Hfile.
  - rewrite Hfile, Hls. simpl. f_equal.
Qed.

Lemma pull_removes_strictly_equal_witness :
  exists s',
    Db.pull example_db "languages" [JStr "French"] (state_with (Yaml languages_doc) 0)
    = (Ok (PVal (JNum 1)), s')
    /\ disk s' "example.yaml" = Some (Yaml [("languages", YSeq [YStr "English"])]).
Proof.
  destruct (pull_removes_strictly_equal example_db (state_with (Yaml languages_doc) 0)
              languages_doc "languages" [YStr "English"; YStr "French"] [JStr "French"])
    as [s' [H1 [H2 _]]].
  - reflexivity.
  - simpl. constructor; [simpl; tauto | constructor].
  - reflexivity.
  - constructor; [reflexivity | constructor].
  - exists s'. split; [exact H1 | exact H2].
Defined.

(** C1, as stated, fails: the element [[1]] is structurally equal to the
    argument [[1]], yet [pull] keeps it and returns 1. *)
Lemma pull_composite_kept :
  erase (JArr 0 [JNum 1]) = YSeq [YNum 1] /\
  (let '(r, s') := Db.pull example_db "k" [JArr 0 [JNum 1]]
                     (state_with (Yaml [("k", YSeq [YSeq [YNum 1]])]) 1) in
   r = Ok (PVal (JNum 1)) /\
   disk s' "example.yaml" = Some (Yaml [("k", YSeq [YSeq [YNum 1]])])).
Proof. split; [reflexivity | vm_compute; split; reflexivity]. Qed.

(** ** [clear] *)

(** C5: [clear] leaves a zero-length file, through the special case of
    [_write] that does not call the serializer (no [EDump] event), and a
    second [clear] does the same. *)
Theorem clear_idempotent (db : QuickYAML) (s : St) (c : contents) :
  disk s (path db) = Some c ->
  exists s1 s2,
    Db.clear db s = (Ok tt, s1)
    /\ disk s1 (path db) = Some Empty /\ log s1 = EWrite (path db) Empty :: log s
    /\ fst (Db.toJSON db s1) = Ok []
    /\ Db.clear db s1 = (Ok tt, s2)
    /\ disk s2 (path db) = Some Empty /\ log s2 = EWrite (path db) Empty :: log s1
    /\ fst (Db.toJSON db s2) = Ok [].
Proof.
  intro H.
  assert (Hw : forall t c0, disk t (path db) = Some c0 ->
             Db.clear db t = (Ok tt, fs_write (path db) Empty t)).
  { intros t c0 Ht. unfold Db.clear, Db._write. now rewrite Ht. }
  assert (Hd : forall t, disk (fs_write (path db) Empty t) (path db) = Some Empty).
  { intro t. simpl. now rewrite String.eqb_refl. }
  exists (fs_write (path db) Empty s), (fs_write (path db) Empty (fs_write (path db) Empty s)).
  repeat split.
  - exact (Hw s c H).
  - apply Hd.
  - unfold Db.toJSON. now rewrite load_empty by apply Hd.
  - exact (Hw _ Empty (Hd s)).
  - apply Hd.
  - unfold Db.toJSON. now rewrite load_empty by apply Hd.
Qed.

Lemma clear_idempotent_witness :
  exists s1 s2,
    Db.clear example_db (state_with (Yaml languages_doc) 0) = (Ok tt, s1)
    /\ disk s1 "example.yaml" = Some Empty
    /\ Db.clear example_db s1 = (Ok tt, s2)
    /\ disk s2 "example.yaml" = Some Empty.
Proof.
  destruct (clear_idempotent example_db (state_with (Yaml languages_doc) 0) (Yaml languages_doc))
    as [s1 [s2 [H1 [H2 [_ [_ [H3 [H4 _]]]]]]]].
  - reflexivity.
  - exists s1, s2. tauto.
Defined.

(** ** Loading a readable file *)

Lemma keys_erase o : List.map fst (erase_doc o) = List.map fst o.
Proof. unfold erase_doc. rewrite List.map_map. reflexivity. Qed.

Lemma load_ok db s c :
  disk s (path db) = Some c -> c <> Malformed ->
  exists o n,
    Db._load db s = (Ok o, set_next n (add_event (ERead (path db)) s))
    /\ erase_doc o = yload (doc_of c).
Proof.
  intros H Hc. destruct c as [| d |]; [| | congruence].
  - exists [], (next_id s). split; [| reflexivity].
    rewrite (load_empty db s H). reflexivity.
  - exists (fst (alloc_doc (next_id s) (yload d))), (snd (alloc_doc (next_id s) (yload d))).
    split; [exact (load_yaml db s d H) | apply alloc_doc_erase].
Qed.

Lemma alloc_arr n y i xs : fst (alloc n y) = JArr i xs -> exists ys, y = YSeq ys.
Proof.
  destruct y; try (simpl; discriminate).
  - intros _. eauto.
  - rewrite alloc_YMap. destruct (alloc_fields (S n) fs). discriminate.
Qed.

(** ** [push] *)

(** C10: on a key bound to a scalar or a mapping, [push] throws a
    TypeError after reading the file twice and before any write: the file
    system is unchanged. *)
Theorem push_non_sequence_throws (db : QuickYAML) (s : St) (d : ydoc) (k : string)
  (y0 : yval) (vals : list jsval) :
  disk s (path db) = Some (Yaml d) ->
  ylookup k d = Some y0 ->
  (forall ys, y0 <> YSeq ys) ->
  exists s',
    Db.push db k vals s = (Err ErrType, s')
    /\ disk s' = disk s
    /\ log s' = ERead (path db) :: ERead (path db) :: log s.
Proof.
  intros Hdisk Hk0 Hy0.
  set (D := yload d). set (y := ynorm y0).
  assert (Hk : ylookup k D = Some y) by (unfold D, y; now rewrite ylookup_yload, Hk0).
  assert (Hy : forall ys, y <> YSeq ys).
  { intros ys E. unfold y in E. destruct y0 as [| | | | xs |]; try discriminate. exact (Hy0 xs eq_refl). }
  unfold Db.push, Db.toJSON, bind at 1. rewrite (load_yaml db s d Hdisk). fold D.
  destruct (alloc_doc (next_id s) D) as [o n1] eqn:Ea. cbn [fst snd].
  set (s1 := set_next n1 (add_event (ERead (path db)) s)).
  assert (Hd1 : disk s1 (path db) = Some (Yaml d)) by exact Hdisk.
  unfold bind at 1, Db.has, bind at 1. unfold Db.toJSON. rewrite (load_yaml db s1 d Hd1). fold D.
  destruct (alloc_doc (next_id s1) D) as [o2 n2] eqn:Ea2. cbn [fst snd].
  destruct (alloc_doc_own D k y (next_id s1) Hk) as [m2 [_ Ho2]].
  rewrite Ea2 in Ho2. cbn [fst] in Ho2.
  assert (Hin : js_in k o2 = true) by (unfold js_in; now rewrite Ho2).
  unfold ret at 1. rewrite Hin. cbn [negb].
  destruct (alloc_doc_own D k y (next_id s) Hk) as [m [_ Ho]].
  rewrite Ea in Ho. cbn [fst] in Ho.
  assert (Hpush : call_push (js_get k o) vals = Err ErrType).
  { unfold js_get. rewrite Ho. unfold call_push.
    destruct (fst (alloc m y)) eqn:Ev; try reflexivity.
    destruct (alloc_arr m y _ _ Ev) as [ys ->]. exfalso. exact (Hy ys eq_refl). }
  unfold bind at 1, lift. rewrite Hpush.
  eexists. split; [reflexivity | split; reflexivity].
Qed.

Lemma push_non_sequence_throws_witness :
  exists s',
    Db.push example_db "name" [JStr "x"] (state_with (Yaml name_doc) 0) = (Err ErrType, s')
    /\ disk s' = disk (state_with (Yaml name_doc) 0).
Proof.
  destruct (push_non_sequence_throws example_db (state_with (Yaml name_doc) 0) name_doc
              "name" (YStr "John") [JStr "x"]) as [s' [H1 [H2 _]]].
  - reflexivity.
  - reflexivity.
  - intros ys. discriminate.
  - exists s'. split; [exact H1 | exact H2].
Defined.

(** ** [purge] *)

Lemma own_js_delete o k k' :
  own k' (js_delete o k) = if String.eqb k' k then None else own k' o.
Proof.
  induction o as [| [k0 x] r IH]; simpl.
  - now destruct (String.eqb k' k).
  - destruct (String.eqb k0 k) eqn:E0; simpl; rewrite IH;
      destruct (String.eqb k' k) eqn:E; try reflexivity;
      destruct (String.eqb k0 k') eqn:E1; try reflexivity;
      repeat match goal with H : String.eqb _ _ = true |- _ => apply String.eqb_eq in H end;
      subst; rewrite ?String.eqb_refl in *; discriminate.
Qed.

Lemma own_purge_fold ks : forall o k,
  own k (fold_left (fun o v => if js_in v o then js_delete o v else o) ks o)
  = if existsb (String.eqb k) ks then None else own k o.
Proof.
  induction ks as [| v r IH]; intros o k; simpl; [reflexivity |].
  rewrite IH.
  assert (Hstep : own k (if js_in v o then js_delete o v else o)
                  = if String.eqb k v then None else own k o).
  { destruct (js_in v o) eqn:Ein; [apply own_js_delete |].
    destruct (String.eqb k v) eqn:E; [| reflexivity].
    apply String.eqb_eq in E. subst v. unfold js_in in Ein.
    destruct (own k o); [discriminate | reflexivity]. }
  rewrite Hstep. destruct (String.eqb k v); simpl; [now destruct (existsb _ r) | reflexivity].
Qed.

(** C8: [purge] reads the file once, removes exactly the given keys that
    are present, keeps every other binding (its value as js-yaml builds
    it), and writes exactly once. *)
Theorem purge_removes_exactly (db : QuickYAML) (s : St) (c : contents) (ks : list string) :
  disk s (path db) = Some c -> c <> Malformed ->
  exists s' c' evs,
    Db.purge db ks s = (Ok tt, s')
    /\ disk s' (path db) = Some c'
    /\ log s' = (evs ++ log s)%list
    /\ count_reads evs = 1 /\ count_writes evs = 1
    /\ (forall k, In k ks -> ylookup k (doc_of c') = None)
    /\ (forall k, ~ In k ks -> ylookup k (doc_of c') = option_map ynorm (ylookup k (doc_of c))).
Proof.
  intros Hdisk Hc.
  destruct (load_ok db s c Hdisk Hc) as [o [n [Hload Her]]].
  unfold Db.purge, Db.toJSON, bind. rewrite Hload.
  set (o' := fold_left (fun o v => if js_in v o then js_delete o v else o) ks o).
  set (s1 := set_next n (add_event (ERead (path db)) s)).
  assert (Hd1 : disk s1 (path db) = Some c) by exact Hdisk.
  assert (Hown : forall k, ylookup k (erase_doc o') =
                 if existsb (String.eqb k) ks then None else option_map ynorm (ylookup k (doc_of c))).
  { intro k. rewrite <- ylookup_yload, <- Her, !own_erase. unfold o'. rewrite own_purge_fold.
    now destruct (existsb _ ks). }
  assert (Hex : forall k, existsb (String.eqb k) ks = true <-> In k ks).
  { intro k. rewrite existsb_exists. split.
    - intros [x [Hx E]]. apply String.eqb_eq in E. now subst.
    - intro H. exists k. split; [exact H | apply String.eqb_refl]. }
  unfold Db._write. rewrite Hd1.
  destruct (Nat.leb (List.length o') 0) eqn:Hlen.
  - assert (Ho' : o' = []) by (destruct o'; [reflexivity | discriminate]).
    exists (fs_write (path db) Empty s1), Empty, [EWrite (path db) Empty; ERead (path db)].
    do 5 (split; [try reflexivity; simpl; now rewrite String.eqb_refl |]). split.
    + intros k Hk. reflexivity.
    + intros k Hk. specialize (Hown k). rewrite Ho' in Hown. simpl in Hown |- *.
      destruct (existsb (String.eqb k) ks) eqn:E; [exfalso; apply Hk, Hex, E | exact Hown].
  - exists (fs_write (path db) (Yaml (erase_doc o')) (add_event EDump s1)), (Yaml (erase_doc o')),
      [EWrite (path db) (Yaml (erase_doc o')); EDump; ERead (path db)].
    do 5 (split; [try reflexivity; simpl; now rewrite String.eqb_refl |]). split.
    + intros k Hk. simpl. rewrite Hown. apply Hex in Hk. now rewrite Hk.
    + intros k Hk. simpl. rewrite Hown.
      destruct (existsb (String.eqb k) ks) eqn:E; [exfalso; apply Hk, Hex, E | reflexivity].
Qed.

Lemma purge_removes_exactly_witness :
  exists s' c',
    Db.purge example_db ["name"; "hobbies"] (state_with (Yaml name_doc) 0) = (Ok tt, s')
    /\ disk s' "example.yaml" = Some c'
    /\ ylookup "name" (doc_of c') = None
    /\ ylookup "age" (doc_of c') = Some (YNum 24).
Proof.
  destruct (purge_removes_exactly example_db (state_with (Yaml name_doc) 0) (Yaml name_doc)
              ["name"; "hobbies"]) as [s' [c' [evs [H1 [H2 [_ [_ [_ [H3 H4]]]]]]]]].
  - reflexivity.
  - discriminate.
  - exists s', c'. split; [exact H1 | split; [exact H2 | split]].
    + apply H3. simpl. tauto.
    + rewrite H4; [reflexivity |]. simpl. intros [E | [E | []]]; discriminate.
Defined.

(** ** Construction *)

Lemma no_check_error_ret {A} (a : A) : no_check_error (ret a).
Proof. intro s. simpl. split; discriminate. Qed.

Lemma no_check_error_bind {A B} (m : M A) (f : A -> M B) :
  no_check_error m -> (forall a, no_check_error (f a)) -> no_check_error (bind m f).
Proof.
  intros Hm Hf s. unfold bind. specialize (Hm s).
  destruct (m s) as [[a | e] s']; [apply Hf |].
  simpl in *. destruct Hm as [H1 H2].
  split; intro E; injection E as ->; [apply H1 | apply H2]; reflexivity.
Qed.

Lemma no_check_error_load db : no_check_error (Db._load db).
Proof.
  intro s. unfold Db._load.
  destruct (disk s (path db)) as [[| d |] |]; simpl;
    try (split; discriminate).
  destruct (alloc_doc _ (yload d)). simpl. split; discriminate.
Qed.

Lemma no_check_error_write db o : no_check_error (Db._write db o).
Proof.
  intro s. unfold Db._write.
  destruct (disk s (path db)); [destruct (Nat.leb _ 0) |]; simpl; split; discriminate.
Qed.

Lemma no_check_error_seed db l : no_check_error (Db.seed db l).
Proof.
  induction l as [| m r IH]; simpl; [apply no_check_error_ret |].
  apply no_check_error_bind.
  - apply no_check_error_bind; [apply no_check_error_load | intro; apply no_check_error_ret].
  - intros h. destruct h; [exact IH |].
    apply no_check_error_bind; [| intro; exact IH].
    apply no_check_error_bind; [apply no_check_error_load | intro; apply no_check_error_write].
Qed.

(** C3 (amended): the constructor checks existence first, then the
    extension; it throws the not-found error exactly when the path is
    missing, and the extension error exactly when the path exists and ends
    in neither .yaml nor .yml. *)
Theorem constructor_checks (p : string) (o : option QuickYAMLOptions) (s : St) :
  (fst (Db.constructor p o s) = Err ErrPathNotFound <-> disk s p = None)
  /\ (fst (Db.constructor p o s) = Err ErrExtension <->
      disk s p <> None /\ (ends_with p ".yaml" || ends_with p ".yml") = false).
Proof.
  unfold Db.constructor.
  destruct (disk s p) as [c |] eqn:Hd.
  - destruct (ends_with p ".yaml" || ends_with p ".yml") eqn:He; simpl.
    + set (db := {| path := p; options := o |}).
      assert (Hn : no_check_error
                     (_ <- (if Db.seeding_enabled o then Db.seed db (Db.default_values o)
                            else ret tt) ;; ret db)).
      { apply no_check_error_bind; [| intro; apply no_check_error_ret].
        destruct (Db.seeding_enabled o); [apply no_check_error_seed | apply no_check_error_ret]. }
      destruct (Hn s) as [H1 H2].
      split; split; intro H; try contradiction; try discriminate.
      destruct H as [_ H]; discriminate.
    + split; split; intro H; try discriminate; try reflexivity.
      split; [discriminate | reflexivity].
  - simpl. split; split; intro H; try reflexivity; try discriminate.
    destruct H as [H _]. contradiction.
Qed.

(** C3, as stated, fails: a missing path with a wrong extension throws the
    not-found error, not the extension error. *)
Lemma constructor_missing_bad_extension :
  fst (Db.constructor "data.txt" None (state_with Empty 0)) = Err ErrPathNotFound
  /\ (ends_with "data.txt" ".yaml" || ends_with "data.txt" ".yml") = false.
Proof. split; reflexivity. Qed.

(** The earlier cached variant ([_init] of src/src/types.ts) tests
    [!endsWith('.yaml') || !endsWith('.yml')], which holds for every path:
    an existing .yaml file is rejected. *)
Example cached_init_rejects_yaml :
  fst (init_cached_check "example.yaml" (state_with Empty 0)) = Err ErrExtension.
Proof. reflexivity. Qed.

(** ** Keys seen through [Object.prototype] *)

(** C4 (code bug): [push] and [pull] decide presence with [in], so for a
    key absent from the document but inherited from [Object.prototype]
    they throw a TypeError instead of returning -1.  No write happens. *)
Theorem push_pull_inherited_key :
  own "toString" [] = None
  /\ Db.push example_db "toString" [JNum 1] (state_with Empty 0)
     = (Err ErrType, {| disk := disk (state_with Empty 0); next_id := 0;
                       log := [ERead "example.yaml"; ERead "example.yaml"] |})
  /\ Db.pull example_db "toString" [JNum 1] (state_with Empty 0)
     = (Err ErrType, {| disk := disk (state_with Empty 0); next_id := 0;
                       log := [ERead "example.yaml"; ERead "example.yaml"] |}).
Proof. split; [reflexivity | split; reflexivity]. Qed.

(** For the other absent keys, [push] returns -1 and does not write. *)
Lemma push_absent_ordinary (db : QuickYAML) (s : St) (c : contents) (k : string)
  (vals : list jsval) :
  disk s (path db) = Some c -> c <> Malformed ->
  ylookup k (doc_of c) = None -> is_proto_name k = false ->
  exists s', Db.push db k vals s = (Ok (PVal (JNum (-1))), s')
             /\ disk s' = disk s
             /\ log s' = ERead (path db) :: ERead (path db) :: log s.
Proof.
  intros Hdisk Hc Hk Hp.
  destruct (load_ok db s c Hdisk Hc) as [o [n [Hl _]]].
  set (s1 := set_next n (add_event (ERead (path db)) s)).
  assert (Hd1 : disk s1 (path db) = Some c) by exact Hdisk.
  destruct (load_ok db s1 c Hd1 Hc) as [o2 [n2 [Hl2 Her2]]].
  assert (Hin : js_in k o2 = false).
  { unfold js_in. rewrite <- (option_map_none ynorm), <- ylookup_yload, <- Her2, own_erase in Hk.
    destruct (own k o2); [discriminate | exact Hp]. }
  unfold Db.push, Db.has, Db.toJSON, bind. rewrite Hl. fold s1. rewrite Hl2.
  unfold ret. rewrite Hin. simpl. eexists. split; [reflexivity | split; reflexivity].
Qed.

(** C6 (code bug): [has] and [get] use [in], so a name inherited from
    [Object.prototype] is reported present in an empty document; and
    [set('__proto__', v)] adds no key, so [get('__proto__')] does not
    return [v]. *)
Theorem has_get_inherited_key :
  own "toString" [] = None
  /\ fst (Db.has example_db "toString" (state_with Empty 0)) = Ok true
  /\ fst (Db.get example_db "toString" (state_with Empty 0)) = Ok (PProto "toString")
  /\ fst ((_ <- Db.set example_db "__proto__" (JNum 5) ;; Db.get example_db "__proto__")
            (state_with (Yaml name_doc) 0)) = Ok (PProto "__proto__").
Proof. repeat split; reflexivity. Qed.

(** For an ordinary key, [set] followed by [get] returns the value set,
    up to the identity of composites (the value read back is a fresh copy,
    built by js-yaml: its mappings list their keys in property order). *)
Lemma set_get_ordinary (db : QuickYAML) (s : St) (c : contents) (k : string) (v : jsval) :
  disk s (path db) = Some c -> c <> Malformed -> k <> "__proto__" ->
  exists r s', (_ <- Db.set db k v ;; Db.get db k) s = (Ok (PVal r), s') /\ erase r = ynorm (erase v).
Proof.
  intros Hdisk Hc Hk.
  destruct (load_ok db s c Hdisk Hc) as [o [n [Hl _]]].
  set (o' := js_set o k v).
  assert (Hown : own k o' = Some v).
  { unfold o'. destruct (own k o) eqn:E.
    - apply own_js_set_same. congruence.
    - unfold js_set. rewrite E. apply String.eqb_neq in Hk. rewrite Hk.
      now apply own_add_key_new. }
  assert (Hne : Nat.leb (List.length o') 0 = false).
  { destruct o'; [discriminate | reflexivity]. }
  set (s1 := set_next n (add_event (ERead (path db)) s)).
  set (s2 := fs_write (path db) (Yaml (erase_doc o')) (add_event EDump s1)).
  assert (Hd2 : disk s2 (path db) = Some (Yaml (erase_doc o'))).
  { simpl. now rewrite String.eqb_refl. }
  destruct (load_ok db s2 (Yaml (erase_doc o')) Hd2 ltac:(discriminate)) as [o2 [n2 [Hl2 Her2]]].
  unfold Db.set, Db.get, Db.toJSON, bind. rewrite Hl. fold s1.
  unfold Db._write. change (disk s1 (path db)) with (disk s (path db)). rewrite Hdisk.
  fold o'. rewrite Hne. fold s2. rewrite Hl2.
  simpl in Her2.
  assert (Hl2k : ylookup k (erase_doc o2) = Some (ynorm (erase v))).
  { rewrite Her2, ylookup_yload, own_erase, Hown. reflexivity. }
  rewrite own_erase in Hl2k. destruct (own k o2) as [r |] eqn:Er; [| discriminate].
  injection Hl2k as Hr.
  exists r. eexists. unfold ret, js_in, js_get. rewrite Er. split; [reflexivity | exact Hr].
Qed.

(** ** [first] and [last] *)

(** C7 (code bug): [data[0] || undefined] turns a falsy first or last value
    ([false], [0], [''], [null]) into [undefined] in a non-empty
    document. *)
Theorem first_last_falsy :
  fst (Db.values example_db (state_with (Yaml [("alive", YBool false)]) 0)) = Ok [JBool false]
  /\ fst (Db.first example_db (state_with (Yaml [("alive", YBool false)]) 0)) = Ok PUndef
  /\ fst (Db.last example_db (state_with (Yaml [("alive", YBool false)]) 0)) = Ok PUndef
  /\ fst (Db.last example_db (state_with (Yaml [("name", YStr "John"); ("age", YNum 0)]) 0))
     = Ok PUndef.
Proof. repeat split; reflexivity. Qed.

(** ** Default values at construction *)

(** C9 (code bug): the constructor skips a default whose variable is a name
    of [Object.prototype] although it is absent from the document, because
    [has] uses [in]; an existing value is kept. *)
Theorem seed_skips_inherited_name :
  let defaults := [{| variable := "toString"; value := JBool true |};
                   {| variable := "alive"; value := JBool true |};
                   {| variable := "age"; value := JNum 24 |}] in
  let '(r, s') := Db.constructor "example.yaml" (alive_options defaults)
                    (state_with (Yaml [("alive", YBool false)]) 0) in
  r = Ok {| path := "example.yaml"; options := alive_options defaults |}
  /\ disk s' "example.yaml" = Some (Yaml [("alive", YBool false); ("age", YNum 24)]).
Proof. vm_compute. split; reflexivity. Qed.

(** ** [forEach] and [map] *)

Lemma forEach_loop_calls {R} (func : Db.callback R) obj :
  forall i s cs s', Db.forEach_loop func obj i s = (Ok cs, s') -> cs = snapshot_calls obj i.
Proof.
  induction obj as [| [k v] r IH]; intros i s cs s' H; simpl in *.
  - unfold ret in H. now injection H as <-.
  - unfold bind in H. destruct (func (PVal v) (Some k) i s) as [[a | e] s1]; [| discriminate].
    destruct (Db.forEach_loop func r (S i) s1) as [[cs1 | e] s2] eqn:E; [| discriminate].
    unfold ret in H. injection H as <- _. f_equal. exact (IH _ _ _ _ E).
Qed.

Lemma map_loop_length {R} db (func : Db.callback R) n :
  forall ci s rs s', Db.map_loop db func n ci s = (Ok rs, s') -> List.length rs = n.
Proof.
  induction n as [| n IH]; intros ci s rs s' H; simpl in H.
  - unfold ret in H. now injection H as <-.
  - unfold bind in H.
    destruct (Db.keys db s) as [[ks | e] s1]; [| discriminate].
    destruct (Db.get db _ s1) as [[v | e] s2]; [| discriminate].
    destruct (func v _ ci s2) as [[r | e] s3]; [| discriminate].
    destruct (Db.map_loop db func n (S ci) s3) as [[rs1 | e] s4] eqn:E; [| discriminate].
    unfold ret in H. injection H as <- _. simpl. f_equal. exact (IH _ _ _ _ E).
Qed.

Lemma nodup_nth_lookup d : forall i k y,
  NoDup (List.map fst d) -> nth_error d i = Some (k, y) -> ylookup k d = Some y.
Proof.
  induction d as [| [k0 y0] r IH]; intros i k y Hnd Hi; [destruct i; discriminate |].
  inversion Hnd as [| ? ? Hnin Hnd']; subst. simpl.
  destruct i as [| i]; simpl in Hi.
  - injection Hi as -> ->. now rewrite String.eqb_refl.
  - destruct (String.eqb k0 k) eqn:E.
    + apply String.eqb_eq in E. subst k0. exfalso. apply Hnin.
      apply nth_error_In in Hi. apply (in_map fst) in Hi. exact Hi.
    + exact (IH i k y Hnd' Hi).
Qed.

Lemma skipn_nth {A} (d : list A) : forall i p, nth_error d i = Some p -> skipn i d = p :: skipn (S i) d.
Proof.
  induction d as [| q r IH]; intros i p H; [destruct i; discriminate |].
  destruct i as [| i]; simpl in *; [now injection H as -> | exact (IH i p H)].
Qed.

Lemma skipn_length_nil {A} (d : list A) i : List.length d <= i -> skipn i d = [].
Proof. intro H. apply List.skipn_all2. exact H. Qed.

Lemma keys_ok db s c :
  disk s (path db) = Some c -> c <> Malformed ->
  exists s1, Db.keys db s = (Ok (List.map fst (yload (doc_of c))), s1) /\ disk s1 = disk s.
Proof.
  intros H Hc. destruct (load_ok db s c H Hc) as [o [n [Hl Her]]].
  exists (set_next n (add_event (ERead (path db)) s)). split; [| reflexivity].
  unfold Db.keys, Db.toJSON, bind. rewrite Hl. unfold ret. rewrite <- Her, keys_erase.
  reflexivity.
Qed.

Lemma get_ok db s c k y :
  disk s (path db) = Some c -> c <> Malformed -> ylookup k (yload (doc_of c)) = Some y ->
  exists v s1, Db.get db k s = (Ok (PVal v), s1) /\ erase v = y /\ disk s1 = disk s.
Proof.
  intros H Hc Hk. destruct (load_ok db s c H Hc) as [o [n [Hl Her]]].
  rewrite <- Her, own_erase in Hk.
  destruct (own k o) as [v |] eqn:Ev; [| discriminate]. injection Hk as Hk.
  exists v, (set_next n (add_event (ERead (path db)) s)).
  unfold Db.get, Db.toJSON, bind. rewrite Hl. unfold ret, js_in, js_get. rewrite Ev.
  split; [reflexivity | split; [exact Hk | reflexivity]].
Qed.

Lemma map_loop_step {R} db (func : Db.callback R) n i t c' k y :
  disk t (path db) = Some c' -> c' <> Malformed -> NoDup (List.map fst (doc_of c')) ->
  nth_error (yload (doc_of c')) i = Some (k, y) ->
  exists w t1, erase w = y /\ disk t1 = disk t /\
    Db.map_loop db func (S n) i t
    = (r <- func (PVal w) (nth_error (List.map fst (yload (doc_of c'))) (S i)) i ;;
       rs <- Db.map_loop db func n (S i) ;;
       ret (r :: rs)) t1.
Proof.
  intros Hd Hc Hnd Hnth.
  destruct (keys_ok db t c' Hd Hc) as [t0 [Hk Hd0]].
  assert (Hks : nth_error (List.map fst (yload (doc_of c'))) i = Some k).
  { rewrite nth_error_map, Hnth. reflexivity. }
  destruct (get_ok db t0 c' k y ltac:(rewrite Hd0; exact Hd) Hc
              (nodup_nth_lookup _ i k y (yload_nodup _ Hnd) Hnth)) as [w [t1 [Hg [Hw Hd1]]]].
  exists w, t1. split; [exact Hw | split; [congruence |]].
  cbn [Db.map_loop]. unfold bind at 1. rewrite Hk. cbv beta iota. rewrite Hks.
  cbv beta iota delta [Db.key_name]. unfold bind at 1. rewrite Hg. reflexivity.
Qed.

Lemma map_loop_values {R} db (func : Db.callback R) c :
  c <> Malformed -> NoDup (List.map fst (doc_of c)) -> preserves_disk func ->
  forall n ci s out s',
    disk s (path db) = Some c -> ci + n = List.length (doc_of c) ->
    Db.map_loop db (spy func) n ci s = (Ok out, s') ->
    List.map (fun x => (prop_erase (fst (fst x)), snd (fst x))) out
    = indexed_values (skipn ci (yload (doc_of c))) ci.
Proof.
  intros Hc Hnd Hf n. induction n as [| n IH]; intros ci s out s' Hd Hlen H.
  - simpl in H. unfold ret in H. injection H as <- _.
    rewrite skipn_length_nil by (rewrite yload_length; lia). reflexivity.
  - assert (Hlt : ci < List.length (yload (doc_of c))) by (rewrite yload_length; lia).
    apply nth_error_Some in Hlt.
    destruct (nth_error (yload (doc_of c)) ci) as [[k y] |] eqn:Hnth; [clear Hlt | congruence].
    destruct (map_loop_step db (spy func) n ci s c k y Hd Hc Hnd Hnth) as [v [s2 [Hv [Hd2 Hstep]]]].
    rewrite Hstep in H. clear Hstep.
    unfold spy at 1 in H. unfold bind in H.
    match type of H with context [func (PVal v) ?kk ci s2] =>
      destruct (func (PVal v) kk ci s2) as [[r | e] s3] eqn:Ef; [| discriminate]
    end.
    pose proof (Hf _ _ _ _ _ _ Ef) as Hd3.
    unfold ret at 1 in H. cbv beta iota in H.
    destruct (Db.map_loop db (spy func) n (S ci) s3) as [[out1 | e] s4] eqn:Erec; [| discriminate].
    unfold ret in H. injection H as <- _.
    rewrite (skipn_nth _ ci (k, y) Hnth). simpl. rewrite Hv. f_equal.
    apply (IH (S ci) s3 out1 s4); [rewrite Hd3, Hd2; exact Hd | lia | exact Erec].
Qed.

Lemma size_ok db s c :
  disk s (path db) = Some c -> c <> Malformed ->
  exists s1, Db.size db s = (Ok (List.length (doc_of c)), s1) /\ disk s1 = disk s.
Proof.
  intros H Hc. destruct (keys_ok db s c H Hc) as [s1 [Hk Hd]].
  exists s1. unfold Db.size, bind. rewrite Hk. unfold ret. rewrite List.length_map, yload_length.
  split; [reflexivity | exact Hd].
Qed.

(** C2 (amended): [forEach] takes one snapshot (the document as loaded:
    array-index keys first, ascending, then the other keys in file order)
    and calls [func] with the value, key and index of each of its entries
    in order, whatever [func] does to the store.  [map] reads the size
    once, runs that many steps and returns as many results.  Each step [i],
    from any state whatever [func] did before, re-reads the file and calls
    [func] with the value at the [i]-th position of the document then on
    disk, the next position's key, and index [i]; so when [func] leaves the
    file alone, the values and indices are the snapshot's. *)
Theorem forEach_snapshot_map_rederives {R} (db : QuickYAML) (s : St) (c : contents) :
  disk s (path db) = Some c -> c <> Malformed -> NoDup (List.map fst (doc_of c)) ->
  (forall (func : Db.callback R) cs s',
     Db.forEach db func s = (Ok cs, s') ->
     exists obj s1, Db.toJSON db s = (Ok obj, s1) /\ erase_doc obj = yload (doc_of c)
                    /\ cs = snapshot_calls obj 0)
  /\ (exists s1, disk s1 = disk s /\
        forall (func : Db.callback R), Db.map db func s = Db.map_loop db func (List.length (doc_of c)) 0 s1)
  /\ (forall (func : Db.callback R) rs s',
        Db.map db func s = (Ok rs, s') -> List.length rs = List.length (doc_of c))
  /\ (forall (func : Db.callback R) n i t c' k y,
        disk t (path db) = Some c' -> c' <> Malformed -> NoDup (List.map fst (doc_of c')) ->
        nth_error (yload (doc_of c')) i = Some (k, y) ->
        exists w t1, erase w = y /\ disk t1 = disk t /\
          Db.map_loop db func (S n) i t
          = (r <- func (PVal w) (nth_error (List.map fst (yload (doc_of c'))) (S i)) i ;;
             rs <- Db.map_loop db func n (S i) ;;
             ret (r :: rs)) t1)
  /\ (forall (func : Db.callback R) out s',
        preserves_disk func ->
        Db.map db (spy func) s = (Ok out, s') ->
        List.map (fun x => (prop_erase (fst (fst x)), snd (fst x))) out
        = indexed_values (yload (doc_of c)) 0).
Proof.
  intros Hd Hc Hnd. split; [| split; [| split; [| split]]].
  - intros func cs s' H.
    destruct (load_ok db s c Hd Hc) as [o [n [Hl Her]]].
    exists o, (set_next n (add_event (ERead (path db)) s)).
    split; [exact Hl | split; [exact Her |]].
    unfold Db.forEach, Db.toJSON, bind at 1 in H. rewrite Hl in H.
    exact (forEach_loop_calls func o 0 _ cs s' H).
  - destruct (size_ok db s c Hd Hc) as [s1 [Hs Hd1]].
    exists s1. split; [exact Hd1 |]. intro func. unfold Db.map, bind at 1. now rewrite Hs.
  - intros func rs s' H.
    destruct (size_ok db s c Hd Hc) as [s1 [Hs _]].
    unfold Db.map, bind at 1 in H. rewrite Hs in H.
    exact (map_loop_length db func _ 0 s1 rs s' H).
  - intros func n i t c' k y Ht Hc' Hnd' Hnth.
    exact (map_loop_step db func n i t c' k y Ht Hc' Hnd' Hnth).
  - intros func out s' Hf H.
    destruct (size_ok db s c Hd Hc) as [s1 [Hs Hd1]].
    unfold Db.map, bind at 1 in H. rewrite Hs in H.
    exact (map_loop_values db func c Hc Hnd Hf _ 0 s1 out s'
             ltac:(rewrite Hd1; exact Hd) eq_refl H).
Qed.

Lemma forEach_snapshot_map_rederives_witness :
  List.map (fun x => (prop_erase (fst (fst x)), snd (fst x)))
    (match fst (Db.map example_db (spy return_value) (state_with (Yaml ab_doc) 0)) with
     | Ok out => out | Err _ => [] end)
  = [(Some (YNum 1), 0); (Some (YNum 2), 1)].
Proof.
  destruct (@forEach_snapshot_map_rederives prop example_db (state_with (Yaml ab_doc) 0)
              (Yaml ab_doc) eq_refl ltac:(discriminate)
              ltac:(simpl; constructor; [simpl; intros [H | []]; discriminate |
                                         constructor; [simpl; tauto | constructor]]))
    as [_ [_ [_ [_ H3]]]].
  destruct (Db.map example_db (spy return_value) (state_with (Yaml ab_doc) 0)) as [[out |] s'] eqn:E.
  - simpl. apply (H3 return_value out s'); [| exact E].
    intros v k i t r t' Hr. unfold return_value, ret in Hr. now injection Hr as _ <-.
  - vm_compute in E. discriminate.
Defined.

(** C2, as stated, fails: [map] re-reads the document at each step, so the
    change made by the first call shows in the second call's value, while
    the snapshot of [forEach] does not see it; and [map] passes
    [keys[currentIndex]] after the increment, the key of the next entry. *)
Lemma map_rederives_document :
  fst (Db.values example_db (state_with (Yaml ab_doc) 0)) = Ok [JNum 1; JNum 2]
  /\ fst (Db.map example_db set_b_on_first_call (state_with (Yaml ab_doc) 0))
     = Ok [PVal (JNum 1); PVal (JNum 5)]
  /\ fst (Db.forEach example_db set_b_on_first_call (state_with (Yaml ab_doc) 0))
     = Ok [(PVal (JNum 1), Some "a", 0); (PVal (JNum 2), Some "b", 1)]
  /\ fst (Db.map example_db return_key (state_with (Yaml ab_doc) 0))
     = Ok [Some "b"; None].
Proof. repeat split; vm_compute; reflexivity. Qed.

(** ** Writing, setting and deleting, read on the stored document *)

Lemma erase_doc_length o : List.length (erase_doc o) = List.length o.
Proof. apply List.length_map. Qed.

Lemma doc_of_stored d : doc_of (stored d) = d.
Proof. destruct d; reflexivity. Qed.

Lemma stored_not_malformed d : stored d <> Malformed.
Proof. destruct d; discriminate. Qed.

Lemma js_in_erase k o : js_in k o = yin k (erase_doc o).
Proof. unfold js_in, yin. rewrite own_erase. now destruct (own k o). Qed.

Lemma erase_js_set_assign o k v :
  erase_doc (js_set o k v) = ydoc_assign (erase_doc o) k (erase v).
Proof.
  unfold ydoc_assign. rewrite own_erase. destruct (own k o) eqn:E; simpl.
  - apply erase_js_set. congruence.
  - unfold js_set. rewrite E. destruct (String.eqb k "__proto__"); [reflexivity |].
    unfold erase_doc. exact (add_key_map (fun p => erase (snd p)) o k v).
Qed.

Lemma erase_js_delete o k : erase_doc (js_delete o k) = ydoc_delete (erase_doc o) k.
Proof.
  induction o as [| [k' v] r IH]; simpl; [reflexivity |].
  destruct (String.eqb k' k); simpl; [exact IH | now rewrite IH].
Qed.

Lemma write_ok db s o c :
  disk s (path db) = Some c ->
  exists s', Db._write db o s = (Ok tt, s')
             /\ disk s' = disk (fs_write (path db) (stored (erase_doc o)) s).
Proof.
  intro H. unfold Db._write. rewrite H.
  destruct o as [| p o]; simpl; eexists; split; reflexivity.
Qed.

Lemma set_disk db s c k v :
  disk s (path db) = Some c -> c <> Malformed ->
  exists s', Db.set db k v s = (Ok tt, s')
             /\ disk s' = disk (fs_write (path db) (stored (ydoc_assign (yload (doc_of c)) k (erase v))) s).
Proof.
  intros Hd Hc. destruct (load_ok db s c Hd Hc) as [o [n [Hl Her]]].
  unfold Db.set, Db.toJSON, bind. rewrite Hl.
  destruct (write_ok db (set_next n (add_event (ERead (path db)) s)) (js_set o k v) c Hd)
    as [s' [Hw Hd']].
  rewrite Hw. exists s'. split; [reflexivity |].
  rewrite Hd', erase_js_set_assign, Her. reflexivity.
Qed.

Lemma delete_disk db s c k :
  disk s (path db) = Some c -> c <> Malformed ->
  exists s', Db.delete db k s = (Ok tt, s')
             /\ disk s' = if yin k (doc_of c)
                          then disk (fs_write (path db) (stored (ydoc_delete (yload (doc_of c)) k)) s)
                          else disk s.
Proof.
  intros Hd Hc. destruct (load_ok db s c Hd Hc) as [o [n [Hl Her]]].
  unfold Db.delete, Db.toJSON, bind. rewrite Hl.
  rewrite js_in_erase, Her, yin_yload. destruct (yin k (doc_of c)).
  - destruct (write_ok db (set_next n (add_event (ERead (path db)) s)) (js_delete o k) c Hd)
      as [s' [Hw Hd']].
    rewrite Hw. exists s'. split; [reflexivity |].
    rewrite Hd', erase_js_delete, Her. reflexivity.
  - eexists. split; reflexivity.
Qed.

Lemma has_ok db s c k :
  disk s (path db) = Some c -> c <> Malformed ->
  exists s1, Db.has db k s = (Ok (yin k (doc_of c)), s1) /\ disk s1 = disk s.
Proof.
  intros Hd Hc. destruct (load_ok db s c Hd Hc) as [o [n [Hl Her]]].
  unfold Db.has, Db.toJSON, bind. rewrite Hl, js_in_erase, Her, yin_yload.
  eexists. split; reflexivity.
Qed.

Lemma get_absent db s c k :
  disk s (path db) = Some c -> c <> Malformed ->
  ylookup k (doc_of c) = None -> is_proto_name k = false ->
  exists s1, Db.get db k s = (Ok PUndef, s1) /\ disk s1 = disk s.
Proof.
  intros Hd Hc Hk Hp. destruct (load_ok db s c Hd Hc) as [o [n [Hl Her]]].
  unfold Db.get, Db.toJSON, bind. rewrite Hl, js_in_erase, Her.
  unfold yin. rewrite ylookup_yload, Hk, Hp. eexists. split; reflexivity.
Qed.

Lemma load_missing db s : disk s (path db) = None -> Db._load db s = (Err ErrDeleted, s).
Proof. intro H. unfold Db._load. now rewrite H. Qed.

Lemma load_malformed db s :
  disk s (path db) = Some Malformed ->
  Db._load db s = (Err ErrParse, add_event (ERead (path db)) s).
Proof. intro H. unfold Db._load. now rewrite H. Qed.

(** ** A missing or unreadable file *)

(** Every operation of the store throws 'The file path was not found or was
    deleted' when the file is gone, without any effect. *)
Theorem missing_file_throws (db : QuickYAML) (s : St) (k : string) (v : jsval)
  (ks : list string) (vals : list jsval) :
  disk s (path db) = None ->
  Db.set db k v s = (Err ErrDeleted, s) /\ Db.delete db k s = (Err ErrDeleted, s)
  /\ Db.purge db ks s = (Err ErrDeleted, s) /\ Db.clear db s = (Err ErrDeleted, s)
  /\ Db.push db k vals s = (Err ErrDeleted, s) /\ Db.pull db k vals s = (Err ErrDeleted, s)
  /\ Db.get db k s = (Err ErrDeleted, s) /\ Db.has db k s = (Err ErrDeleted, s)
  /\ Db.keys db s = (Err ErrDeleted, s) /\ Db.entries db s = (Err ErrDeleted, s).
Proof.
  intro H. pose proof (load_missing db s H) as Hl.
  unfold Db.set, Db.delete, Db.purge, Db.push, Db.pull, Db.get, Db.has, Db.keys,
    Db.entries, Db.toJSON, bind.
  rewrite Hl. repeat split.
  unfold Db.clear, Db._write. now rewrite H.
Qed.

(** A file js-yaml cannot parse makes every operation that loads it throw
    'Unable to parse the YAML file' before any write; [clear], which does
    not load, replaces it by an empty file. *)
Theorem malformed_file_not_written (db : QuickYAML) (s : St) (k : string) (v : jsval)
  (ks : list string) (vals : list jsval) :
  disk s (path db) = Some Malformed ->
  let s1 := add_event (ERead (path db)) s in
  Db.set db k v s = (Err ErrParse, s1) /\ Db.delete db k s = (Err ErrParse, s1)
  /\ Db.purge db ks s = (Err ErrParse, s1)
  /\ Db.push db k vals s = (Err ErrParse, s1) /\ Db.pull db k vals s = (Err ErrParse, s1)
  /\ Db.get db k s = (Err ErrParse, s1) /\ Db.has db k s = (Err ErrParse, s1)
  /\ Db.keys db s = (Err ErrParse, s1)
  /\ Db.clear db s = (Ok tt, fs_write (path db) Empty s).
Proof.
  intros H s1. pose proof (load_malformed db s H) as Hl.
  unfold Db.set, Db.delete, Db.purge, Db.push, Db.pull, Db.get, Db.has, Db.keys,
    Db.toJSON, bind.
  rewrite Hl. repeat split.
  unfold Db.clear, Db._write. now rewrite H.
Qed.

(** ** Queries *)

Lemma read_only_ret {A} (a : A) : read_only (ret a).
Proof. intro s. reflexivity. Qed.

Lemma read_only_bind {A B} (m : M A) (f : A -> M B) :
  read_only m -> (forall a, read_only (f a)) -> read_only (bind m f).
Proof.
  intros Hm Hf s. unfold bind. specialize (Hm s).
  destruct (m s) as [[a | e] s'] eqn:E; simpl in *; [now rewrite Hf | exact Hm].
Qed.

Lemma read_only_load db : read_only (Db._load db).
Proof.
  intro s. unfold Db._load. destruct (disk s (path db)) as [[| d |] |]; try reflexivity.
  destruct (alloc_doc _ (yload d)). reflexivity.
Qed.

Ltac read_only_steps :=
  repeat first [ apply read_only_ret | apply read_only_load
               | apply read_only_bind; [| intro]
               | match goal with |- read_only (if ?b then _ else _) => destruct b end ].

Lemma read_only_pick db ks : read_only (Db.pick db ks).
Proof.
  induction ks as [| k r IH]; simpl; [apply read_only_ret |].
  apply read_only_bind; [unfold Db.has, Db.toJSON; read_only_steps | intro h].
  destruct (negb h); [exact IH |].
  apply read_only_bind; [unfold Db.get, Db.toJSON; read_only_steps | intro v].
  apply read_only_bind; [exact IH | intro; apply read_only_ret].
Qed.

(** The queries never change a file: [toJSON], [keys], [values], [size],
    [entries], [get], [has], [ensure], [find], [pick], [indexOf], [first]
    and [last] leave the file system as they found it, whatever it holds
    and whether they throw or not. *)
Theorem queries_read_only (db : QuickYAML) (k : string) (dflt : jsval) (ks : list string) :
  read_only (Db.toJSON db) /\ read_only (Db.keys db) /\ read_only (Db.values db)
  /\ read_only (Db.size db) /\ read_only (Db.entries db) /\ read_only (Db.get db k)
  /\ read_only (Db.has db k) /\ read_only (Db.ensure db k dflt) /\ read_only (Db.find db k)
  /\ read_only (Db.pick db ks) /\ read_only (Db.indexOf db k)
  /\ read_only (Db.first db) /\ read_only (Db.last db).
Proof.
  repeat split; try apply read_only_pick;
    unfold Db.toJSON, Db.keys, Db.values, Db.size, Db.entries, Db.get, Db.has,
      Db.ensure, Db.find, Db.indexOf, Db.first, Db.last; read_only_steps.
Qed.

(** ** [set] and [delete] *)

Lemma malformed_dec c : c = Malformed \/ c <> Malformed.
Proof. destruct c; [right | right | left]; congruence. Qed.

Lemma stored_cons d : d <> [] -> stored d = Yaml d.
Proof. destruct d; [contradiction | reflexivity]. Qed.

Lemma fs_write_disk p c s q :
  disk (fs_write p c s) q = if String.eqb q p then Some c else disk s q.
Proof. reflexivity. Qed.

Lemma array_index_nonindex k : index_like k = false -> array_index k = None.
Proof.
  intro H. unfold array_index. destruct (String.eqb k "0") eqn:E.
  - apply String.eqb_eq in E. subst k. discriminate H.
  - destruct k as [| ch r]; [reflexivity |]. rewrite H. reflexivity.
Qed.

(** [set] on a variable absent from the file, not [__proto__] and not an
    array index, appends it after the other keys of the document as loaded
    (array-index keys first, ascending, then the others in file order): the
    file holds that document with [variable: value] added at the end, and
    no other file changes. *)
Theorem set_appends_new_key (db : QuickYAML) (s : St) (c : contents) (k : string) (v : jsval) :
  disk s (path db) = Some c -> c <> Malformed -> index_like k = false ->
  ylookup k (doc_of c) = None -> k <> "__proto__" ->
  exists s', Db.set db k v s = (Ok tt, s')
             /\ disk s' (path db) = Some (Yaml (yload (doc_of c) ++ [(k, erase v)])%list)
             /\ (forall q, q <> path db -> disk s' q = disk s q).
Proof.
  intros Hd Hc Hi Hk Hp.
  destruct (set_disk db s c k v Hd Hc) as [s' [Hs Hd']].
  exists s'. split; [exact Hs |].
  unfold ydoc_assign in Hd'. rewrite ylookup_yload, Hk in Hd'. cbn [option_map] in Hd'.
  apply String.eqb_neq in Hp. rewrite Hp in Hd'.
  unfold add_key in Hd'. rewrite (array_index_nonindex k Hi) in Hd'.
  rewrite stored_cons in Hd' by (destruct (yload (doc_of c)); discriminate).
  split.
  - rewrite Hd', fs_write_disk, String.eqb_refl. reflexivity.
  - intros q Hq. rewrite Hd', fs_write_disk. apply String.eqb_neq in Hq. now rewrite Hq.
Qed.

(** [set] on a variable present in the file rebinds it where it stands in
    the document as loaded (array-index keys first, ascending, then the
    others in file order): the keys and their order are unchanged, and no
    other file changes. *)
Theorem set_rebinds_in_place (db : QuickYAML) (s : St) (c : contents) (k : string)
  (y : yval) (v : jsval) :
  disk s (path db) = Some c -> c <> Malformed ->
  ylookup k (doc_of c) = Some y ->
  exists s', Db.set db k v s = (Ok tt, s')
             /\ disk s' (path db) = Some (Yaml (ydoc_set (yload (doc_of c)) k (erase v)))
             /\ List.map fst (ydoc_set (yload (doc_of c)) k (erase v)) = List.map fst (yload (doc_of c))
             /\ (forall q, q <> path db -> disk s' q = disk s q).
Proof.
  intros Hd Hc Hk0.
  assert (Hk : ylookup k (yload (doc_of c)) = Some (ynorm y)) by (now rewrite ylookup_yload, Hk0).
  destruct (set_disk db s c k v Hd Hc) as [s' [Hs Hd']].
  exists s'. split; [exact Hs |].
  unfold ydoc_assign in Hd'. rewrite Hk in Hd'.
  assert (Hne : ydoc_set (yload (doc_of c)) k (erase v) <> []).
  { intro E. apply (f_equal (List.map fst)) in E. rewrite ydoc_set_keys in E.
    apply ylookup_keys in Hk. exact (Hk E). }
  rewrite (stored_cons _ Hne) in Hd'.
  split; [| split; [apply ydoc_set_keys |]].
  - rewrite Hd', fs_write_disk, String.eqb_refl. reflexivity.
  - intros q Hq. rewrite Hd', fs_write_disk. apply String.eqb_neq in Hq. now rewrite Hq.
Qed.

(** [delete] of a variable present in the file writes the document as
    loaded (array-index keys first, ascending, then the others in file
    order) without it, the other keys in that order; removing the last key
    leaves a zero-length file. *)
Theorem delete_present_key (db : QuickYAML) (s : St) (c : contents) (k : string) (y : yval) :
  disk s (path db) = Some c -> c <> Malformed ->
  ylookup k (doc_of c) = Some y ->
  exists s', Db.delete db k s = (Ok tt, s')
             /\ disk s' (path db) = Some (stored (ydoc_delete (yload (doc_of c)) k))
             /\ (forall q, q <> path db -> disk s' q = disk s q).
Proof.
  intros Hd Hc Hk.
  destruct (delete_disk db s c k Hd Hc) as [s' [Hs Hd']].
  exists s'. split; [exact Hs |].
  unfold yin in Hd'. rewrite Hk in Hd'.
  split.
  - rewrite Hd', fs_write_disk, String.eqb_refl. reflexivity.
  - intros q Hq. rewrite Hd', fs_write_disk. apply String.eqb_neq in Hq. now rewrite Hq.
Qed.

(** [delete] of a variable absent from the file (and not a name of
    [Object.prototype]) writes nothing. *)
Theorem delete_absent_no_write (db : QuickYAML) (s : St) (c : contents) (k : string) :
  disk s (path db) = Some c -> c <> Malformed ->
  ylookup k (doc_of c) = None -> is_proto_name k = false ->
  exists s', Db.delete db k s = (Ok tt, s') /\ disk s' = disk s
             /\ count_writes (log s') = count_writes (log s).
Proof.
  intros Hd Hc Hk Hp. destruct (load_ok db s c Hd Hc) as [o [n [Hl Her]]].
  unfold Db.delete, Db.toJSON, bind. rewrite Hl, js_in_erase, Her, yin_yload.
  unfold yin. rewrite Hk, Hp. eexists. split; [reflexivity | split; reflexivity].
Qed.

(** Setting a new variable and deleting it again gives back the file's
    document as loaded: the file is rewritten with the keys it had, array
    indices first, ascending, then the others in file order. *)
Theorem set_delete_roundtrip (db : QuickYAML) (s : St) (c : contents) (k : string) (v : jsval) :
  disk s (path db) = Some c -> c <> Malformed ->
  ylookup k (doc_of c) = None -> is_proto_name k = false ->
  exists s', (_ <- Db.set db k v ;; Db.delete db k) s = (Ok tt, s')
             /\ disk s' (path db) = Some (stored (yload (doc_of c)))
             /\ (forall q, q <> path db -> disk s' q = disk s q).
Proof.
  intros Hd Hc Hk0 Hp.
  set (D := yload (doc_of c)).
  assert (Hk : ylookup k D = None) by (unfold D; now rewrite ylookup_yload, Hk0).
  destruct (set_disk db s c k v Hd Hc) as [s1 [Hs Hd1]]. fold D in Hd1.
  assert (Hkp : String.eqb k "__proto__" = false).
  { apply String.eqb_neq. intro E. subst. discriminate. }
  set (d1 := ydoc_assign D k (erase v)) in Hd1.
  assert (Hd1e : d1 = add_key D k (erase v)) by (unfold d1, ydoc_assign; now rewrite Hk, Hkp).
  assert (Hp1 : disk s1 (path db) = Some (stored d1)).
  { rewrite Hd1, fs_write_disk, String.eqb_refl. reflexivity. }
  destruct (delete_disk db s1 (stored d1) k Hp1 (stored_not_malformed d1)) as [s2 [Hdel Hd2]].
  rewrite doc_of_stored in Hd2.
  assert (Hin : yin k d1 = true).
  { unfold yin. rewrite Hd1e, ylookup_add_key by apply yload_ordered. now rewrite Hk, String.eqb_refl. }
  rewrite Hin in Hd2. unfold d1, D in Hd2. rewrite yload_assign in Hd2. fold D in Hd2.
  unfold ydoc_assign in Hd2. rewrite Hk, Hkp in Hd2.
  rewrite ydoc_delete_add_key, (ydoc_delete_absent _ _ Hk) in Hd2.
  exists s2. unfold bind at 1. rewrite Hs. split; [exact Hdel | split].
  - rewrite Hd2, fs_write_disk, String.eqb_refl. reflexivity.
  - intros q Hq. rewrite Hd2, fs_write_disk. apply String.eqb_neq in Hq as Hq'.
    rewrite Hq', Hd1, fs_write_disk, Hq'. reflexivity.
Qed.

(** Two [set]s of the same variable leave the file system as the second
    one alone would, whatever the file holds. *)
Theorem set_set_last_wins (db : QuickYAML) (s : St) (k : string) (v w : jsval) (q : string) :
  fst ((_ <- Db.set db k v ;; Db.set db k w) s) = fst (Db.set db k w s)
  /\ disk (snd ((_ <- Db.set db k v ;; Db.set db k w) s)) q = disk (snd (Db.set db k w s)) q.
Proof.
  destruct (disk s (path db)) as [c |] eqn:Hd.
  - destruct (malformed_dec c) as [Hm | Hc].
    + subst c. pose proof (load_malformed db s Hd) as Hl.
      assert (E : forall x, Db.set db k x s = (Err ErrParse, add_event (ERead (path db)) s)).
      { intro x. unfold Db.set, Db.toJSON, bind. now rewrite Hl. }
      unfold bind. rewrite !E. split; reflexivity.
    + destruct (set_disk db s c k v Hd Hc) as [s1 [Hs1 Hd1]].
      destruct (set_disk db s c k w Hd Hc) as [s2 [Hs2 Hd2]].
      set (d1 := ydoc_assign (yload (doc_of c)) k (erase v)) in Hd1.
      assert (Hp1 : disk s1 (path db) = Some (stored d1)).
      { rewrite Hd1, fs_write_disk, String.eqb_refl. reflexivity. }
      destruct (set_disk db s1 (stored d1) k w Hp1 (stored_not_malformed d1)) as [s3 [Hs3 Hd3]].
      rewrite doc_of_stored in Hd3. unfold d1 in Hd3.
      rewrite yload_assign, ydoc_assign_assign in Hd3 by apply yload_ordered.
      unfold bind. rewrite Hs1, Hs3, Hs2. split; [reflexivity |]. cbn [snd].
      rewrite Hd3, Hd2. rewrite !fs_write_disk. rewrite Hd1, fs_write_disk.
      destruct (String.eqb q (path db)); reflexivity.
  - pose proof (load_missing db s Hd) as Hl.
    assert (E : forall x, Db.set db k x s = (Err ErrDeleted, s)).
    { intro x. unfold Db.set, Db.toJSON, bind. now rewrite Hl. }
    unfold bind. rewrite !E. split; reflexivity.
Qed.

(** ** Reading variables *)

Lemma own_of_lookup o d k y :
  erase_doc o = d -> ylookup k d = Some y -> exists v, own k o = Some v /\ erase v = y.
Proof.
  intros Her Hk. rewrite <- Her, own_erase in Hk.
  destruct (own k o) as [v |]; [| discriminate]. injection Hk as Hv. eauto.
Qed.

Lemma ylookup_ydoc_delete d k : ylookup k (ydoc_delete d k) = None.
Proof.
  induction d as [| [k' x] r IH]; simpl; [reflexivity |].
  destruct (String.eqb k' k) eqn:E; simpl; [exact IH | now rewrite E].
Qed.

(** After [delete] of a variable that is not a name of [Object.prototype],
    [has] reports it absent and [get] returns [undefined], whether it was
    present or not. *)
Theorem delete_then_absent (db : QuickYAML) (s : St) (c : contents) (k : string) :
  disk s (path db) = Some c -> c <> Malformed -> is_proto_name k = false ->
  exists s1, Db.delete db k s = (Ok tt, s1)
             /\ fst (Db.has db k s1) = Ok false /\ fst (Db.get db k s1) = Ok PUndef.
Proof.
  intros Hd Hc Hp.
  destruct (delete_disk db s c k Hd Hc) as [s1 [Hdel Hd1]].
  exists s1. split; [exact Hdel |].
  assert (H : exists c1, disk s1 (path db) = Some c1 /\ c1 <> Malformed
                         /\ ylookup k (doc_of c1) = None).
  { unfold yin in Hd1. destruct (ylookup k (doc_of c)) eqn:Hk.
    - exists (stored (ydoc_delete (yload (doc_of c)) k)).
      rewrite Hd1, fs_write_disk, String.eqb_refl, doc_of_stored.
      split; [reflexivity | split; [apply stored_not_malformed | apply ylookup_ydoc_delete]].
    - rewrite Hp in Hd1. exists c. rewrite Hd1. auto. }
  destruct H as [c1 [Hd2 [Hc1 Hk1]]].
  destruct (has_ok db s1 c1 k Hd2 Hc1) as [s2 [Hh _]].
  destruct (get_absent db s1 c1 k Hd2 Hc1 Hk1 Hp) as [s3 [Hg _]].
  rewrite Hh, Hg. unfold yin. rewrite Hk1, Hp. split; reflexivity.
Qed.

(** [ensure] returns the stored value of a variable (as js-yaml builds it)
    when present and the default otherwise; [find] pairs the variable's
    name with what [get] returns: the stored value, or [undefined]. *)
Theorem ensure_find_values (db : QuickYAML) (s : St) (c : contents) (k : string) (dflt : jsval) :
  disk s (path db) = Some c -> c <> Malformed -> is_proto_name k = false ->
  (ylookup k (doc_of c) = None ->
     fst (Db.ensure db k dflt s) = Ok (PVal dflt) /\ fst (Db.find db k s) = Ok (k, PUndef))
  /\ (forall y, ylookup k (doc_of c) = Some y ->
        (exists v, fst (Db.ensure db k dflt s) = Ok (PVal v) /\ erase v = ynorm y)
        /\ (exists v, fst (Db.find db k s) = Ok (k, PVal v) /\ erase v = ynorm y)).
Proof.
  intros Hd Hc Hp. destruct (load_ok db s c Hd Hc) as [o [n [Hl Her]]].
  unfold Db.ensure, Db.find, Db.get, Db.toJSON, bind. rewrite Hl, js_in_erase, Her.
  unfold yin. rewrite ylookup_yload. split.
  - intro Hk. rewrite Hk, Hp. split; reflexivity.
  - intros y Hk0. rewrite Hk0.
    assert (Hk : ylookup k (yload (doc_of c)) = Some (ynorm y)) by (now rewrite ylookup_yload, Hk0).
    destruct (own_of_lookup o _ k _ Her Hk) as [v [Ho Hv]].
    unfold js_get. rewrite Ho. split; exists v; split; (reflexivity || exact Hv).
Qed.

(** [pick] returns, in the order asked, the name and value (as js-yaml
    builds it) of each asked variable present in the file, skipping the
    absent ones (for names that are not those of [Object.prototype]); it
    writes nothing. *)
Theorem pick_present_in_order (db : QuickYAML) (s : St) (c : contents) (ks : list string) :
  disk s (path db) = Some c -> c <> Malformed ->
  forallb (fun k => negb (is_proto_name k)) ks = true ->
  exists out s', Db.pick db ks s = (Ok out, s')
                 /\ List.map (fun p => (fst p, prop_erase (snd p))) out = pick_spec (yload (doc_of c)) ks
                 /\ disk s' = disk s.
Proof.
  intros Hd Hc. revert s Hd.
  induction ks as [| k r IH]; intros s Hd Hks.
  - exists [], s. split; [reflexivity | split; reflexivity].
  - simpl in Hks. apply andb_prop in Hks as [Hk Hr].
    apply negb_true_iff in Hk.
    destruct (has_ok db s c k Hd Hc) as [s1 [Hh Hd1]].
    assert (Hd1' : disk s1 (path db) = Some c) by now rewrite Hd1.
    simpl. unfold bind at 1. rewrite Hh, <- yin_yload. unfold yin. rewrite Hk.
    destruct (ylookup k (yload (doc_of c))) as [y |] eqn:Hy; cbn [negb].
    + destruct (get_ok db s1 c k y Hd1' Hc Hy) as [v [s2 [Hg [Hv Hd2]]]].
      assert (Hd2' : disk s2 (path db) = Some c) by now rewrite Hd2.
      destruct (IH s2 Hd2' Hr) as [out [s' [Hp [Hout Hds]]]].
      exists ((k, PVal v) :: out), s'. unfold bind. rewrite Hg, Hp.
      split; [reflexivity | split].
      * cbn [List.map fst snd prop_erase]. rewrite Hv, Hout.
        unfold pick_spec. cbn [flat_map]. try rewrite Hy; reflexivity.
      * now rewrite Hds, Hd2, Hd1.
    + destruct (IH s1 Hd1' Hr) as [out [s' [Hp [Hout Hds]]]].
      exists out, s'. split; [exact Hp | split].
      * rewrite Hout. unfold pick_spec. cbn [flat_map]. try rewrite Hy; reflexivity.
      * now rewrite Hds, Hd1.
Qed.

(** [entries] returns the key/value pairs of the document as loaded
    (array-index keys first, ascending, then the others in file order), and
    they are exactly the pairs of what [keys] and [values] return. *)
Theorem entries_keys_values (db : QuickYAML) (s : St) (c : contents) :
  disk s (path db) = Some c -> c <> Malformed ->
  exists o s', Db.entries db s = (Ok o, s') /\ erase_doc o = yload (doc_of c)
               /\ fst (Db.keys db s) = Ok (List.map fst o)
               /\ fst (Db.values db s) = Ok (List.map snd o).
Proof.
  intros Hd Hc. destruct (load_ok db s c Hd Hc) as [o [n [Hl Her]]].
  exists o. eexists.
  unfold Db.entries, Db.keys, Db.values, Db.toJSON, bind. rewrite Hl.
  split; [reflexivity | split; [exact Her | split; reflexivity]].
Qed.

Lemma index_of_from_spec l x : forall i0,
  (Db.index_of_from l x i0 = (-1)%Z /\ ~ In x l)
  \/ (exists n, Db.index_of_from l x i0 = (i0 + Z.of_nat n)%Z
                /\ nth_error l n = Some x /\ ~ In x (firstn n l)).
Proof.
  induction l as [| y r IH]; intro i0; simpl.
  - left. tauto.
  - destruct (String.eqb y x) eqn:E.
    + apply String.eqb_eq in E. subst. right. exists 0. simpl.
      split; [lia | split; [reflexivity | tauto]].
    + apply String.eqb_neq in E. destruct (IH (i0 + 1)%Z) as [[H1 H2] | [n [H1 [H2 H3]]]].
      * left. split; [exact H1 | intros [H | H]; contradiction].
      * right. exists (S n). simpl. split; [lia | split; [exact H2 |]].
        intros [H | H]; contradiction.
Qed.

(** [indexOf] returns -1 when the variable is not a key of the file, and
    otherwise the position of the key in the document as loaded
    (array-index keys first, ascending, then the others in file order). *)
Theorem indexOf_position (db : QuickYAML) (s : St) (c : contents) (k : string) :
  disk s (path db) = Some c -> c <> Malformed ->
  exists i, fst (Db.indexOf db k s) = Ok i
            /\ ((i = (-1)%Z /\ ylookup k (doc_of c) = None)
                \/ (exists n, i = Z.of_nat n
                              /\ nth_error (List.map fst (yload (doc_of c))) n = Some k)).
Proof.
  intros Hd Hc. destruct (keys_ok db s c Hd Hc) as [s1 [Hk _]].
  unfold Db.indexOf, bind. rewrite Hk. eexists. split; [reflexivity |].
  destruct (index_of_from_spec (List.map fst (yload (doc_of c))) k 0) as [[H1 H2] | [n [H1 [H2 _]]]].
  - left. split; [exact H1 |]. apply ylookup_none_in in H2.
    rewrite ylookup_yload in H2. now apply option_map_none in H2.
  - right. exists n. split; [rewrite H1; lia | exact H2].
Qed.

(** ** [push], [pull] and [clear] *)

Lemma erase_seq v ys : erase v = YSeq ys -> exists i xs, v = JArr i xs /\ List.map erase xs = ys.
Proof. destruct v; simpl; try discriminate. intro H. injection H as <-. eauto. Qed.

(** [push] on a variable bound to a sequence appends the values at its
    end, rewrites the file with the document as loaded and the sequence
    (as js-yaml builds it) rebound in place, and returns the new length. *)
Theorem push_appends (db : QuickYAML) (s : St) (c : contents) (k : string)
  (ys : list yval) (vals : list jsval) :
  disk s (path db) = Some c -> c <> Malformed ->
  ylookup k (doc_of c) = Some (YSeq ys) ->
  exists s', Db.push db k vals s
             = (Ok (PVal (JNum (Z.of_nat (List.length ys + List.length vals)))), s')
             /\ disk s' (path db)
                = Some (Yaml (ydoc_set (yload (doc_of c)) k
                                (YSeq (List.map ynorm ys ++ List.map erase vals))))
             /\ (forall q, q <> path db -> disk s' q = disk s q).
Proof.
  intros Hd Hc Hk0.
  assert (Hk : ylookup k (yload (doc_of c)) = Some (YSeq (List.map ynorm ys)))
    by (now rewrite ylookup_yload, Hk0).
  destruct (load_ok db s c Hd Hc) as [o [n [Hl Her]]].
  set (s1 := set_next n (add_event (ERead (path db)) s)).
  assert (Hd1 : disk s1 (path db) = Some c) by exact Hd.
  destruct (has_ok db s1 c k Hd1 Hc) as [s2 [Hh Hd2]].
  assert (Hin : yin k (doc_of c) = true) by (unfold yin; now rewrite Hk0).
  destruct (own_of_lookup o _ k _ Her Hk) as [v [Ho Hv]].
  destruct (erase_seq v _ Hv) as [i [xs [-> Hxs]]].
  unfold Db.push, Db.toJSON, bind at 1. rewrite Hl. fold s1.
  unfold bind at 1. rewrite Hh, Hin. cbn [negb].
  unfold js_get at 1. rewrite Ho. unfold call_push, lift, bind at 1.
  set (arr := JArr i (xs ++ vals)).
  assert (Hown : own k o <> None) by congruence.
  unfold Db._write, bind. rewrite Hd2, Hd1.
  assert (Hne : Nat.leb (List.length (js_set o k arr)) 0 = false).
  { destruct (js_set o k arr) eqn:E; [| reflexivity].
    apply (f_equal (List.map fst)) in E. rewrite js_set_keys in E by exact Hown.
    assert (Hni : ~ In k (List.map fst o)) by (rewrite E; simpl; tauto).
    apply own_none_in in Hni. contradiction. }
  rewrite Hne. unfold js_get. rewrite (own_js_set_same o k arr Hown).
  unfold length_of, lift.
  eexists. split.
  - unfold arr. rewrite List.length_app, <- (List.length_map ynorm ys), <- Hxs, List.length_map.
    rewrite Nat2Z.inj_add. reflexivity.
  - rewrite (erase_js_set o k (JArr i (xs ++ vals)) Hown), Her. simpl.
    rewrite List.map_app, Hxs. split.
    + now rewrite String.eqb_refl.
    + intros q Hq. apply String.eqb_neq in Hq. rewrite Hq. simpl. now rewrite Hd2.
Qed.

(** [push] and [pull] on a variable absent from the file (and not a name
    of [Object.prototype]) return -1 after reading the file twice, and
    write nothing. *)
Theorem push_pull_absent_ordinary (db : QuickYAML) (s : St) (c : contents) (k : string)
  (vals : list jsval) :
  disk s (path db) = Some c -> c <> Malformed ->
  ylookup k (doc_of c) = None -> is_proto_name k = false ->
  (exists s', Db.push db k vals s = (Ok (PVal (JNum (-1))), s')
              /\ disk s' = disk s /\ log s' = ERead (path db) :: ERead (path db) :: log s)
  /\ (exists s', Db.pull db k vals s = (Ok (PVal (JNum (-1))), s')
                 /\ disk s' = disk s /\ log s' = ERead (path db) :: ERead (path db) :: log s).
Proof.
  intros Hdisk Hc Hk Hp.
  destruct (load_ok db s c Hdisk Hc) as [o [n [Hl _]]].
  set (s1 := set_next n (add_event (ERead (path db)) s)).
  assert (Hd1 : disk s1 (path db) = Some c) by exact Hdisk.
  destruct (load_ok db s1 c Hd1 Hc) as [o2 [n2 [Hl2 Her2]]].
  assert (Hin : js_in k o2 = false).
  { rewrite js_in_erase, Her2, yin_yload. unfold yin. now rewrite Hk, Hp. }
  unfold Db.push, Db.pull, Db.has, Db.toJSON, bind. rewrite Hl. fold s1. rewrite Hl2.
  unfold ret. rewrite Hin. simpl.
  split; eexists; split; [reflexivity | split; reflexivity | reflexivity | split; reflexivity].
Qed.

(** [clear] works on any existing file, even one js-yaml cannot parse: it
    leaves a zero-length file, which reads back as a document with no keys,
    so [size] is 0, [first] is [undefined], and [has] only sees the names
    of [Object.prototype]. *)
Theorem clear_then_empty (db : QuickYAML) (s : St) (c : contents) (k : string) :
  disk s (path db) = Some c ->
  exists s1, Db.clear db s = (Ok tt, s1) /\ disk s1 (path db) = Some Empty
             /\ fst (Db.size db s1) = Ok 0 /\ fst (Db.first db s1) = Ok PUndef
             /\ fst (Db.has db k s1) = Ok (is_proto_name k).
Proof.
  intro Hd. unfold Db.clear, Db._write. rewrite Hd. cbn.
  eexists. split; [reflexivity |].
  assert (He : disk (fs_write (path db) Empty s) (path db) = Some Empty)
    by (rewrite fs_write_disk, String.eqb_refl; reflexivity).
  split; [exact He |].
  unfold Db.size, Db.first, Db.has, Db.keys, Db.values, Db.toJSON, bind.
  rewrite (load_empty db _ He). split; [| split]; reflexivity.
Qed.

(** ** Construction *)

Lemma seed_spec_cons d dv r :
  seed_spec d (dv :: r)
  = seed_spec (if yin (variable dv) d then d
               else add_key (yload d) (variable dv) (erase (value dv))) r.
Proof. reflexivity. Qed.

Lemma seed_disk db : forall l s c,
  disk s (path db) = Some c -> c <> Malformed ->
  exists s' c', Db.seed db l s = (Ok tt, s') /\ disk s' (path db) = Some c'
                /\ c' <> Malformed /\ doc_of c' = seed_spec (doc_of c) l
                /\ (forall q, q <> path db -> disk s' q = disk s q).
Proof.
  induction l as [| dv r IH]; intros s c Hd Hc.
  - exists s, c. repeat split; auto.
  - destruct (has_ok db s c (variable dv) Hd Hc) as [s1 [Hh Hd1]].
    assert (Hd1' : disk s1 (path db) = Some c) by now rewrite Hd1.
    cbn [Db.seed]. unfold bind at 1. rewrite Hh, seed_spec_cons.
    destruct (yin (variable dv) (doc_of c)) eqn:Hin.
    + destruct (IH s1 c Hd1' Hc) as [s' [c' [Hs [Hd' [Hc' [Hdoc Hq]]]]]].
      exists s', c'. rewrite Hs. split; [reflexivity |].
      do 3 (split; [assumption |]).
      intros q Hne. rewrite Hq by exact Hne. now rewrite Hd1.
    + destruct (set_disk db s1 c (variable dv) (value dv) Hd1' Hc) as [s2 [Hs2 Hd2]].
      set (d2 := ydoc_assign (yload (doc_of c)) (variable dv) (erase (value dv))) in Hd2.
      assert (Hd2' : disk s2 (path db) = Some (stored d2))
        by (rewrite Hd2, fs_write_disk, String.eqb_refl; reflexivity).
      destruct (IH s2 (stored d2) Hd2' (stored_not_malformed d2))
        as [s' [c' [Hs [Hd' [Hc' [Hdoc Hq]]]]]].
      exists s', c'. cbn [negb]. unfold bind at 1. rewrite Hs2, Hs.
      split; [reflexivity |]. do 2 (split; [assumption |]). split.
      * rewrite Hdoc, doc_of_stored. unfold d2, ydoc_assign.
        unfold yin in Hin. rewrite ylookup_yload.
        destruct (ylookup (variable dv) (doc_of c)); [discriminate |]. cbn [option_map].
        assert (Hp : String.eqb (variable dv) "__proto__" = false).
        { apply String.eqb_neq. intro E. rewrite E in Hin. discriminate. }
        rewrite Hp. reflexivity.
      * intros q Hne. rewrite Hq, Hd2, fs_write_disk by exact Hne.
        apply String.eqb_neq in Hne. rewrite Hne. now rewrite Hd1.
Qed.

(** With [setValuesOnReady] and a non-empty default list, the constructor
    walks the defaults in order; when a default's variable is not [in] the
    document, it adds it, in property order, to the document as loaded and
    writes that back (so a stored value is never overwritten, and the first
    default of a name wins); no other file changes. *)
Theorem constructor_seeds_defaults (p : string) (o : option QuickYAMLOptions) (s : St)
  (c : contents) :
  disk s p = Some c -> c <> Malformed ->
  (ends_with p ".yaml" || ends_with p ".yml") = true ->
  Db.seeding_enabled o = true ->
  exists s' c', Db.constructor p o s = (Ok {| path := p; options := o |}, s')
                /\ disk s' p = Some c'
                /\ doc_of c' = seed_spec (doc_of c) (Db.default_values o)
                /\ (forall q, q <> p -> disk s' q = disk s q).
Proof.
  intros Hd Hc He Hs.
  destruct (seed_disk {| path := p; options := o |} (Db.default_values o) s c Hd Hc)
    as [s' [c' [Hseed [Hd' [_ [Hdoc Hq]]]]]].
  exists s', c'. unfold Db.constructor. rewrite Hd, He, Hs. cbn [negb].
  unfold bind. rewrite Hseed. split; [reflexivity | auto].
Qed.

Lemma ends_with_yaml_not_yml p : ends_with p ".yaml" = true -> ends_with p ".yml" = false.
Proof.
  unfold ends_with. cbn [String.length]. intros H.
  apply andb_prop in H as [Hn H]. apply Nat.leb_le in Hn. apply String.eqb_eq in H.
  rewrite (proj2 (Nat.leb_le 4 (String.length p)) ltac:(lia)). cbn [andb].
  apply String.eqb_neq. intro H'.
  pose proof (substring_correct1 p (String.length p - 5) 5 1 ltac:(lia)) as G1.
  pose proof (substring_correct1 p (String.length p - 4) 4 0 ltac:(lia)) as G2.
  rewrite H in G1. rewrite H' in G2.
  replace (1 + (String.length p - 5)) with (0 + (String.length p - 4)) in G1 by lia.
  rewrite <- G2 in G1. discriminate.
Qed.

(** The constructor of the earlier cached variant can never succeed: it
    throws the not-found error on a missing path and the extension error
    on every existing one, before reading the file. *)
Theorem cached_constructor_always_throws (p : string) (s : St) :
  cached_constructor p s = (Err (match disk s p with None => ErrPathNotFound
                                                    | Some _ => ErrExtension end), s).
Proof.
  unfold cached_constructor, init_cached_check, bind.
  destruct (disk s p); [| reflexivity].
  destruct (ends_with p ".yaml") eqn:E; [| reflexivity].
  rewrite (ends_with_yaml_not_yml p E). reflexivity.
Qed.

(** ** Instances *)

Lemma missing_file_throws_witness :
  disk (state_with Empty 0) (path missing_db) = None
  /\ Db.get missing_db "name" (state_with Empty 0) = (Err ErrDeleted, state_with Empty 0).
Proof.
  split; [reflexivity |].
  exact (proj1 (proj2 (proj2 (proj2 (proj2 (proj2 (proj2
    (missing_file_throws missing_db (state_with Empty 0) "name" JNull [] []
       eq_refl)))))))).
Defined.

Lemma malformed_file_not_written_witness :
  Db.set example_db "name" (JStr "John") (state_with Malformed 0)
  = (Err ErrParse, add_event (ERead "example.yaml") (state_with Malformed 0)).
Proof.
  exact (proj1 (malformed_file_not_written example_db (state_with Malformed 0) "name"
                  (JStr "John") [] [] eq_refl)).
Defined.

Lemma set_appends_new_key_witness :
  exists s', Db.set example_db "c" (JNum 3) (state_with (Yaml index_doc) 0) = (Ok tt, s')
             /\ disk s' "example.yaml"
                = Some (Yaml [("1", YNum 1); ("b", YNum 2); ("c", YNum 3)]).
Proof.
  destruct (set_appends_new_key example_db (state_with (Yaml index_doc) 0) (Yaml index_doc) "c"
              (JNum 3) eq_refl ltac:(discriminate) eq_refl eq_refl ltac:(discriminate))
    as [s' [H1 [H2 _]]].
  exists s'. split; [exact H1 | exact H2].
Defined.

Lemma set_rebinds_in_place_witness :
  exists s', Db.set example_db "a" (JNum 7) (state_with (Yaml ab_doc) 0) = (Ok tt, s')
             /\ disk s' "example.yaml" = Some (Yaml [("a", YNum 7); ("b", YNum 2)]).
Proof.
  destruct (set_rebinds_in_place example_db (state_with (Yaml ab_doc) 0) (Yaml ab_doc) "a"
              (YNum 1) (JNum 7) eq_refl ltac:(discriminate) eq_refl) as [s' [H1 [H2 _]]].
  exists s'. split; [exact H1 | exact H2].
Defined.

Lemma delete_present_key_witness :
  exists s', Db.delete example_db "a" (state_with (Yaml ab_doc) 0) = (Ok tt, s')
             /\ disk s' "example.yaml" = Some (Yaml [("b", YNum 2)]).
Proof.
  destruct (delete_present_key example_db (state_with (Yaml ab_doc) 0) (Yaml ab_doc) "a"
              (YNum 1) eq_refl ltac:(discriminate) eq_refl) as [s' [H1 [H2 _]]].
  exists s'. split; [exact H1 | exact H2].
Defined.

Lemma delete_absent_no_write_witness :
  exists s', Db.delete example_db "z" (state_with (Yaml ab_doc) 0) = (Ok tt, s')
             /\ disk s' = disk (state_with (Yaml ab_doc) 0).
Proof.
  destruct (delete_absent_no_write example_db (state_with (Yaml ab_doc) 0) (Yaml ab_doc) "z"
              eq_refl ltac:(discriminate) eq_refl eq_refl) as [s' [H1 [H2 _]]].
  exists s'. split; [exact H1 | exact H2].
Defined.

Lemma set_delete_roundtrip_witness :
  exists s', (_ <- Db.set example_db "0" (JNum 3) ;; Db.delete example_db "0")
               (state_with (Yaml index_doc) 0) = (Ok tt, s')
             /\ disk s' "example.yaml" = Some (Yaml [("1", YNum 1); ("b", YNum 2)]).
Proof.
  destruct (set_delete_roundtrip example_db (state_with (Yaml index_doc) 0) (Yaml index_doc) "0"
              (JNum 3) eq_refl ltac:(discriminate) eq_refl eq_refl) as [s' [H1 [H2 _]]].
  exists s'. split; [exact H1 | exact H2].
Defined.

Lemma delete_then_absent_witness :
  exists s1, Db.delete example_db "a" (state_with (Yaml ab_doc) 0) = (Ok tt, s1)
             /\ fst (Db.has example_db "a" s1) = Ok false
             /\ fst (Db.get example_db "a" s1) = Ok PUndef.
Proof.
  exact (delete_then_absent example_db (state_with (Yaml ab_doc) 0) (Yaml ab_doc) "a"
           eq_refl ltac:(discriminate) eq_refl).
Defined.

Lemma ensure_find_values_witness :
  fst (Db.ensure example_db "z" (JNum 0) (state_with (Yaml ab_doc) 0)) = Ok (PVal (JNum 0))
  /\ fst (Db.find example_db "z" (state_with (Yaml ab_doc) 0)) = Ok ("z", PUndef).
Proof.
  exact (proj1 (ensure_find_values example_db (state_with (Yaml ab_doc) 0) (Yaml ab_doc) "z"
                  (JNum 0) eq_refl ltac:(discriminate) eq_refl) eq_refl).
Defined.

Lemma pick_present_in_order_witness :
  exists out s', Db.pick example_db ["b"; "z"; "a"] (state_with (Yaml ab_doc) 0) = (Ok out, s')
                 /\ List.map (fun p => (fst p, prop_erase (snd p))) out
                    = [("b", Some (YNum 2)); ("a", Some (YNum 1))].
Proof.
  destruct (pick_present_in_order example_db (state_with (Yaml ab_doc) 0) (Yaml ab_doc)
              ["b"; "z"; "a"] eq_refl ltac:(discriminate) eq_refl) as [out [s' [H1 [H2 _]]]].
  exists out, s'. split; [exact H1 | exact H2].
Defined.

Lemma entries_keys_values_witness :
  exists o s', Db.entries example_db (state_with (Yaml ab_doc) 0) = (Ok o, s')
               /\ erase_doc o = ab_doc.
Proof.
  destruct (entries_keys_values example_db (state_with (Yaml ab_doc) 0) (Yaml ab_doc)
              eq_refl ltac:(discriminate)) as [o [s' [H1 [H2 _]]]].
  exists o, s'. split; [exact H1 | exact H2].
Defined.

Lemma indexOf_position_witness :
  exists i, fst (Db.indexOf example_db "b" (state_with (Yaml index_doc) 0)) = Ok i
            /\ ((i = (-1)%Z /\ ylookup "b" index_doc = None)
                \/ (exists n, i = Z.of_nat n
                              /\ nth_error (List.map fst (yload index_doc)) n = Some "b")).
Proof.
  exact (indexOf_position example_db (state_with (Yaml index_doc) 0) (Yaml index_doc) "b"
           eq_refl ltac:(discriminate)).
Defined.

Lemma push_appends_witness :
  exists s', Db.push example_db "languages" [JStr "Arabic"] (state_with (Yaml languages_doc) 0)
             = (Ok (PVal (JNum 3)), s')
             /\ disk s' "example.yaml"
                = Some (Yaml [("languages", YSeq [YStr "English"; YStr "French"; YStr "Arabic"])]).
Proof.
  destruct (push_appends example_db (state_with (Yaml languages_doc) 0) (Yaml languages_doc)
              "languages" [YStr "English"; YStr "French"] [JStr "Arabic"] eq_refl
              ltac:(discriminate) eq_refl) as [s' [H1 [H2 _]]].
  exists s'. split; [exact H1 | exact H2].
Defined.

Lemma push_pull_absent_ordinary_witness :
  exists s', Db.pull example_db "z" [JNum 1] (state_with (Yaml ab_doc) 0)
             = (Ok (PVal (JNum (-1))), s') /\ disk s' = disk (state_with (Yaml ab_doc) 0).
Proof.
  destruct (push_pull_absent_ordinary example_db (state_with (Yaml ab_doc) 0) (Yaml ab_doc)
              "z" [JNum 1] eq_refl ltac:(discriminate) eq_refl eq_refl)
    as [_ [s' [H1 [H2 _]]]].
  exists s'. split; [exact H1 | exact H2].
Defined.

Lemma clear_then_empty_witness :
  exists s1, Db.clear example_db (state_with Malformed 0) = (Ok tt, s1)
             /\ disk s1 "example.yaml" = Some Empty
             /\ fst (Db.size example_db s1) = Ok 0 /\ fst (Db.first example_db s1) = Ok PUndef
             /\ fst (Db.has example_db "name" s1) = Ok false.
Proof.
  exact (clear_then_empty example_db (state_with Malformed 0) Malformed "name" eq_refl).
Defined.

Lemma constructor_seeds_defaults_witness :
  let defaults := [{| variable := "alive"; value := JBool true |};
                   {| variable := "age"; value := JNum 24 |};
                   {| variable := "age"; value := JNum 30 |}] in
  exists s' c', Db.constructor "example.yaml" (alive_options defaults)
                  (state_with (Yaml [("alive", YBool false)]) 0)
                = (Ok {| path := "example.yaml"; options := alive_options defaults |}, s')
                /\ disk s' "example.yaml" = Some c'
                /\ doc_of c' = [("alive", YBool false); ("age", YNum 24)].
Proof.
  intro defaults.
  destruct (constructor_seeds_defaults "example.yaml" (alive_options defaults)
              (state_with (Yaml [("alive", YBool false)]) 0) (Yaml [("alive", YBool false)])
              eq_refl ltac:(discriminate) eq_refl eq_refl)
    as [s' [c' [H1 [H2 [H3 _]]]]].
  exists s', c'. split; [exact H1 | split; [exact H2 | exact H3]].
Defined.

Lemma set_get_ordinary_witness :
  exists r s', (_ <- Db.set example_db "c" (JArr 0 [JNum 1]) ;; Db.get example_db "c")
                 (state_with (Yaml ab_doc) 5) = (Ok (PVal r), s')
               /\ erase r = YSeq [YNum 1].
Proof.
  exact (set_get_ordinary example_db (state_with (Yaml ab_doc) 5) (Yaml ab_doc) "c"
           (JArr 0 [JNum 1]) eq_refl ltac:(discriminate) ltac:(discriminate)).
Defined.
